(** * Qdrant Collection Manager: a shallow embedding of the interactive
      administration script [qdrant_collection_manager.py]

    The script is a single-threaded menu loop around five HTTP calls.  It
    is embedded as a state-and-exception monad over a world made of the
    console input still to come, the replies the remote service will give,
    and the trace of what the program did (prompts, requests, messages).

    Conventions of the embedding.
    - Console text is held in [string], a non-ASCII character as its UTF-8
      bytes (so the answer with an accented i of the source).  The string
      built-ins of [PyStr] follow Python on ASCII text; a statement that
      needs a line to be no blank, no keyword or no number is made for lines
      that [PyStr.isascii] accepts.
    - A reply is read through the shape the script expects of it: the
      [collections] member of a result, when present, is a list of objects
      that have a name.
    - A keyboard interrupt is delivered where the program waits for the
      user, that is at a prompt.
    - Decorative output (colours, rules, tables) is abstracted to the
      identity of the message printed. *)

From Stdlib Require Import String Ascii List ZArith Lia Bool Arith Permutation.
Import ListNotations.
Local Open Scope string_scope.
Local Open Scope list_scope.

(** ** Python's string built-ins, on ASCII text

    [strip], [lower] and [int] are Python's on the text that [isascii]
    accepts.  Python also knows blanks, capital letters and digits outside
    ASCII, which these functions leave alone. *)

Module PyStr.

(** [str.isspace] on the ASCII range: TAB, LF, VT, FF, CR, FS, GS, RS, US
    and the space. *)
Definition is_space (c : ascii) : bool :=
  let n := nat_of_ascii c in
  ((9 <=? n)%nat && (n <=? 13)%nat) || ((28 <=? n)%nat && (n <=? 32)%nat).

Fixpoint lstrip (s : string) : string :=
  match s with
  | EmptyString => EmptyString
  | String c r => if is_space c then lstrip r else s
  end.

Fixpoint rstrip (s : string) : string :=
  match s with
  | EmptyString => EmptyString
  | String c r =>
      match rstrip r with
      | EmptyString => if is_space c then EmptyString else String c EmptyString
      | r' => String c r'
      end
  end.

(** [s.strip()] *)
Definition strip (s : string) : string := rstrip (lstrip s).

Definition lower_char (c : ascii) : ascii :=
  let n := nat_of_ascii c in
  if (65 <=? n)%nat && (n <=? 90)%nat then ascii_of_nat (n + 32) else c.

(** [s.lower()] *)
Fixpoint lower (s : string) : string :=
  match s with
  | EmptyString => EmptyString
  | String c r => String (lower_char c) (lower r)
  end.

(** [s.split(',')]: never empty, one more field than there are commas. *)
Fixpoint split_comma (s : string) : list string :=
  match s with
  | EmptyString => [EmptyString]
  | String c r =>
      if Ascii.eqb c "," then EmptyString :: split_comma r
      else match split_comma r with
           | [] => [String c EmptyString]
           | t :: ts => String c t :: ts
           end
  end.

(** [x in [a, b, ...]] for strings. *)
Definition mem (x : string) (l : list string) : bool :=
  existsb (String.eqb x) l.

Definition digit_value (c : ascii) : option Z :=
  let n := nat_of_ascii c in
  if (48 <=? n)%nat && (n <=? 57)%nat then Some (Z.of_nat (n - 48)) else None.

(** Decimal digits with single underscores between digits, as [int]
    reads them; the result carries the number of digits read. *)
Fixpoint int_digits (s : string) (acc : Z) (count : nat) (after_digit : bool)
  : option (Z * nat) :=
  match s with
  | EmptyString => if after_digit then Some (acc, count) else None
  | String c r =>
      if Ascii.eqb c "_" then
        if after_digit then int_digits r acc count false else None
      else
        match digit_value c with
        | Some d => int_digits r (10 * acc + d)%Z (S count) true
        | None => None
        end
  end.

(** CPython refuses decimal strings of more than 4300 digits. *)
Definition int_max_str_digits : nat := 4300.

Definition int_unsigned (s : string) : option Z :=
  match int_digits s 0%Z 0 false with
  | Some (v, count) => if (count <=? int_max_str_digits)%nat then Some v else None
  | None => None
  end.

(** [int(s)] for a string [s]; [None] stands for [ValueError]. *)
Definition int (s : string) : option Z :=
  match strip s with
  | String "+" r => int_unsigned r
  | String "-" r => option_map Z.opp (int_unsigned r)
  | t => int_unsigned t
  end.

(** [s.isascii()] *)
Fixpoint isascii (s : string) : bool :=
  match s with
  | EmptyString => true
  | String c r => (nat_of_ascii c <? 128)%nat && isascii r
  end.

End PyStr.

(** ** Data model *)

(** An entry of the remote listing.  The script subscripts ['name'] on
    every entry; the other members only feed the table it prints. *)
Record collection := {
  name : string;
  vectors_count : option Z;
  status : option string
}.

(** What the detail view reads from a collection description. *)
Record collection_info := {
  info_status : option string;
  info_vectors_count : option Z;
  info_indexed_vectors_count : option Z;
  info_size : option Z;
  info_distance : option string;
  info_optimizer_config : bool
}.

(** The body of a create request: [{"vectors": {"size", "distance"}}]. *)
Record vectors_config := { size : Z; distance : string }.

(** The ['result'] member of a reply, as far as the script looks at it. *)
Inductive result_value :=
| ResultTrue
| ResultListing (collections : list collection)
| ResultInfo (info : collection_info)
| ResultEmptyObject
| ResultFalsy
| ResultScalar.

(** A JSON object received from the service. *)
Record body := {
  body_status : option string;
  body_result : option result_value
}.

Inductive error_kind :=
| EOFError | ValueError | IndexError | AttributeError
| ConnectionError | RequestTimeout | RequestException | JSONDecodeError | OSError.

(** Python's exceptions: [Error _] are the subclasses of [Exception]. *)
Inductive exn :=
| KeyboardInterrupt
| SystemExit (code : Z)
| Error (kind : error_kind).

(** What the service does with one request: the call raises, or a response
    comes back with a status code and, when it parses to an object, a body. *)
Inductive http_reply :=
| Fails (kind : error_kind)
| Response (status_code : Z) (json : option body).

Record response := { status_code : Z; json : option body }.

Inductive http_method := GET | PUT | DELETE.

Record request := {
  method : http_method;
  url : string;
  json_body : option vectors_config;
  auth_of : option (string * string);
  timeout : Z
}.

(** The manager object: the connection configuration fixed by [__init__]. *)
Record manager := {
  host : string;
  port : string;
  user : option string;
  password : option string;
  base_url : string;
  auth : option (string * string)
}.

(** The process environment once [load_dotenv] has run, or the fact that
    loading the environment file raises. *)
Record environ := {
  dotenv_loads : bool;
  QDRANT_HOST : option string;
  QDRANT_PORT : option string;
  QDRANT_USER : option string;
  QDRANT_PASSWORD : option string
}.

(** One thing the user does at a prompt. *)
Inductive console_event :=
| Line (text : string)
| CtrlC
| Eof.

Inductive prompt :=
| AskMenu | AskName | AskVectorSize | AskLargeSize | AskDistance | AskCreate
| AskSelection (action : string) | AskDeletion | AskContinue.

Inductive message :=
| HostMissing | CredentialsIncomplete
| Probing | Connected | ConnectionHttpError (code : Z) | CannotConnect
| CheckServer | ConnectionTimeout | ConnectionUnexpected (kind : error_kind)
| ListBadStatus | ListHttpError (code : Z) | ListFailed (kind : error_kind)
| NoCollections | Listing (shown : list collection)
| ConfigHeader | NameEmpty | NameExists (entered : string) | SizeHints
| SizeNotPositive | SizeVeryLarge | InvalidNumber | DistanceMenu
| DistanceInvalid | Summary (entered : string) (dims : Z) (metric : string)
| CreateCancelled | Cancelled
| Creating (target : string) | Created (target : string)
| CreateRefused (target : string) | CreateHttpError (code : Z)
| CreateFailed (target : string) (kind : error_kind)
| SelectionHelp (action : string) | SelectionEmpty
| OutOfRange (num : Z) (bound : nat) | InvalidToken (token : string)
| NothingSelected
| DeletionWarning (targets : list string) | AnswerYesOrNo
| DeleteRefused (target : string) | DeleteHttpError (code : Z) (target : string)
| DeleteFailed (target : string) (kind : error_kind)
| DeleteStart | Deleting (target : string) | ItemOk | ItemError
| Results (successful failed : list string) (operation : string)
| Details (target : string) (info : collection_info)
| DetailsUnavailable (target : string)
| Menu | InvalidOption | Leaving
| Banner | NoConnection | Fetching | ListUnavailable | NothingToShow
| NothingToDelete | Verifying | CreatedOk (target : string) (state : option string)
| DeletionCancelled | Interrupted | Unexpected (kind : error_kind)
| Traceback | Goodbye
| Fatal (kind : error_kind).

(** What the program does, in order. *)
Inductive event :=
| Prompted (p : prompt)
| Requested (r : request)
| Printed (m : message)
| Slept (milliseconds : Z).

(** ** The world and the monad *)

Record world := {
  stdin : list console_event;
  service : list http_reply;
  trace : list event
}.

Inductive outcome (A : Type) :=
| Ret (a : A)
| Raise (e : exn)
| OutOfFuel.
Arguments Ret {A} a.
Arguments Raise {A} e.
Arguments OutOfFuel {A}.

Definition M (A : Type) : Type := world -> outcome A * world.

Definition ret {A} (a : A) : M A := fun w => (Ret a, w).

Definition raise {A} (e : exn) : M A := fun w => (Raise e, w).

Definition bind {A B} (m : M A) (f : A -> M B) : M B :=
  fun w =>
    match m w with
    | (Ret a, w') => f a w'
    | (Raise e, w') => (Raise e, w')
    | (OutOfFuel, w') => (OutOfFuel, w')
    end.

Notation "x <- m ;; k" := (bind m (fun x => k))
  (at level 61, m at next level, right associativity).
Notation "m ;; k" := (bind m (fun _ => k))
  (at level 61, right associativity).

Definition record (ev : event) (w : world) : world :=
  {| stdin := stdin w; service := service w; trace := trace w ++ [ev] |}.

Definition emit (ev : event) : M unit := fun w => (Ret tt, record ev w).

Definition print (m : message) : M unit := emit (Printed m).

(** [time.sleep] *)
Definition sleep (milliseconds : Z) : M unit := emit (Slept milliseconds).

(** [sys.exit(code)] *)
Definition sys_exit {A} (code : Z) : M A := raise (SystemExit code).

(** [input(prompt)]: the next thing the user does.  A closed or exhausted
    input raises [EOFError]. *)
Definition input (p : prompt) : M string :=
  fun w =>
    let w1 := record (Prompted p) w in
    match stdin w with
    | [] => (Raise (Error EOFError), w1)
    | Line text :: rest =>
        (Ret text, {| stdin := rest; service := service w1; trace := trace w1 |})
    | CtrlC :: rest =>
        (Raise KeyboardInterrupt,
         {| stdin := rest; service := service w1; trace := trace w1 |})
    | Eof :: rest =>
        (Raise (Error EOFError),
         {| stdin := rest; service := service w1; trace := trace w1 |})
    end.

(** [requests.get/put/delete]: the request goes out and the service's next
    reply comes back; a service with nothing left to say is unreachable. *)
Definition send (r : request) : M response :=
  fun w =>
    let w1 := record (Requested r) w in
    match service w with
    | [] => (Raise (Error ConnectionError), w1)
    | Fails kind :: rest =>
        (Raise (Error kind),
         {| stdin := stdin w1; service := rest; trace := trace w1 |})
    | Response code data :: rest =>
        (Ret {| status_code := code; json := data |},
         {| stdin := stdin w1; service := rest; trace := trace w1 |})
    end.

(** [try: m except ...]: [handler e] is the clause that catches [e]. *)
Definition try_except {A} (m : M A) (handler : exn -> option (M A)) : M A :=
  fun w =>
    match m w with
    | (Raise e, w') =>
        match handler e with
        | Some h => h w'
        | None => (Raise e, w')
        end
    | r => r
    end.

Definition except_Exception {A} (h : error_kind -> M A) (e : exn) : option (M A) :=
  match e with
  | Error kind => Some (h kind)
  | _ => None
  end.

Definition except_KeyboardInterrupt {A} (h : M A) (e : exn) : option (M A) :=
  match e with
  | KeyboardInterrupt => Some h
  | _ => None
  end.

Definition except_ValueError {A} (h : M A) (e : exn) : option (M A) :=
  match e with
  | Error ValueError => Some h
  | _ => None
  end.

(** How an iteration of a loop ends: [continue] (or falling off the end
    of the body) with the loop's variables, or leaving the loop with a
    value ([break], or [return] when the loop ends the function). *)
Inductive step (L A : Type) :=
| Continue (l : L)
| Break (a : A).
Arguments Continue {L A} l.
Arguments Break {L A} a.

Fixpoint while_fuel {L A} (fuel : nat) (body : L -> M (step L A)) (l : L) : M A :=
  match fuel with
  | O => fun w => (OutOfFuel, w)
  | S n =>
      c <- body l ;;
      match c with
      | Continue l' => while_fuel n body l'
      | Break a => ret a
      end
  end.

(** [while True:].  Every loop of the script reads from the console before
    it goes round again, so one more round than there is input left is
    enough: lemmas [consumes_while_true] and [while_true_unfold] below, and
    [main_outcome] for the whole program. *)
Definition while_true {L A} (body : L -> M (step L A)) (l : L) : M A :=
  fun w => while_fuel (S (length (stdin w))) body l w.

(** [for x in xs:] with the loop's variables threaded through. *)
Fixpoint for_each {X L} (xs : list X) (body : X -> L -> M L) (l : L) : M L :=
  match xs with
  | [] => ret l
  | x :: rest => l' <- body x l ;; for_each rest body l'
  end.

(** [for x in xs:] whose body may [return]: the result is the loop's
    variables at the end, or the value returned early. *)
Fixpoint for_each_until {X L A} (xs : list X) (body : X -> L -> M (step L A)) (l : L)
  : M (step L A) :=
  match xs with
  | [] => ret (Continue l)
  | x :: rest =>
      c <- body x l ;;
      match c with
      | Continue l' => for_each_until rest body l'
      | Break a => ret (Break a)
      end
  end.

(** A local variable of a Python function: not yet assigned, or bound. *)
Inductive local (A : Type) :=
| Unbound
| Bound (a : A).
Arguments Unbound {A}.
Arguments Bound {A} a.

(** ** The manager's methods *)

Section Manager.

Import PyStr.

Definition yes_words : list string := ["y"; "yes"; "sí"; "si"].

(** [answer.strip().lower() in ['y', 'yes', 'sí', 'si']] *)
Definition answered_yes (answer : string) : bool :=
  mem (lower (strip answer)) yes_words.

(** Truth value of an optional string ([None] and [''] are false). *)
Definition truthy (s : option string) : bool :=
  match s with
  | Some (String _ _) => true
  | _ => false
  end.

(** [load_config]: read the environment, stop the process without a host. *)
Definition load_config (env : environ)
  : M (string * string * option string * option string) :=
  (if dotenv_loads env then ret tt else raise (Error OSError)) ;;
  let host := QDRANT_HOST env in
  let port := match QDRANT_PORT env with Some p => p | None => "6333" end in
  let user := QDRANT_USER env in
  let password := QDRANT_PASSWORD env in
  match host with
  | Some (String c r) =>
      (if negb (truthy user) || negb (truthy password)
       then print CredentialsIncomplete else ret tt) ;;
      ret (String c r, port, user, password)
  | _ => print HostMissing ;; sys_exit 1
  end.

(** [__init__] *)
Definition init (env : environ) : M manager :=
  config <- load_config env ;;
  let '(host, port, user, password) := config in
  ret {| host := host; port := port; user := user; password := password;
         base_url := ("http://" ++ host ++ ":" ++ port)%string;
         auth := match user, password with
                 | Some (String c r), Some (String c' r') =>
                     Some (String c r, String c' r')
                 | _, _ => None
                 end |}.

Variable self : manager.

Definition http (verb : http_method) (path : string)
  (payload : option vectors_config) (seconds : Z) : request :=
  {| method := verb; url := (base_url self ++ path)%string; json_body := payload;
     auth_of := auth self; timeout := seconds |}.

(** The five requests of the script, with the timeouts it gives them. *)
Definition ping_request : request := http GET "/" None 10.

Definition list_request : request := http GET "/collections" None 10.

Definition info_request (collection_name : string) : request :=
  http GET ("/collections/" ++ collection_name)%string None 10.

Definition create_request (collection_name : string) (config : vectors_config)
  : request :=
  http PUT ("/collections/" ++ collection_name)%string (Some config) 30.

Definition delete_request (collection_name : string) : request :=
  http DELETE ("/collections/" ++ collection_name)%string None 30.

(** [response.json()]: raises when the body is not a JSON object. *)
Definition json_of (r : response) : M body :=
  match json r with
  | Some data => ret data
  | None => raise (Error JSONDecodeError)
  end.

(** [data.get('status') == 'ok'] *)
Definition status_ok (data : body) : bool :=
  match body_status data with
  | Some s => String.eqb s "ok"
  | None => false
  end.

(** [data.get('result') is True] *)
Definition result_is_true (data : body) : bool :=
  match body_result data with
  | Some ResultTrue => true
  | _ => false
  end.

(** [data.get('result', {}).get('collections', [])], for a [collections]
    member that is a list when it is there. *)
Definition collections_of (data : body) : M (list collection) :=
  match body_result data with
  | None => ret []
  | Some (ResultListing collections) => ret collections
  | Some (ResultInfo _) | Some ResultEmptyObject => ret []
  | Some ResultTrue | Some ResultFalsy | Some ResultScalar =>
      raise (Error AttributeError)
  end.

Definition test_connection : M bool :=
  try_except
    (print Probing ;;
     response <- send ping_request ;;
     if (status_code response =? 200)%Z
     then print Connected ;; ret true
     else print (ConnectionHttpError (status_code response)) ;; ret false)
    (fun e =>
       match e with
       | Error ConnectionError => Some (print CannotConnect ;; print CheckServer ;; ret false)
       | Error RequestTimeout => Some (print ConnectionTimeout ;; ret false)
       | Error kind => Some (print (ConnectionUnexpected kind) ;; ret false)
       | _ => None
       end).

Definition get_collections : M (option (list collection)) :=
  try_except
    (response <- send list_request ;;
     if (status_code response =? 200)%Z then
       data <- json_of response ;;
       if status_ok data then
         collections <- collections_of data ;;
         ret (Some collections)
       else print ListBadStatus ;; ret None
     else print (ListHttpError (status_code response)) ;; ret None)
    (except_Exception (fun kind => print (ListFailed kind) ;; ret None)).

Definition display_collections (collections : list collection) : M unit :=
  match collections with
  | [] => print NoCollections
  | _ => print (Listing collections)
  end.

(** One round of the first loop of [get_collection_config]: the name. *)
Definition name_iteration : M (step unit string) :=
  line <- input AskName ;;
  let entered := strip line in
  if String.eqb entered "" then print NameEmpty ;; ret (Continue tt)
  else
    collections <- get_collections ;;
    if match collections with
       | Some (col :: cols) =>
           existsb (fun col => String.eqb (name col) entered) (col :: cols)
       | _ => false
       end
    then print (NameExists entered) ;; ret (Continue tt)
    else ret (Break entered).

Definition name_prompt : M string := while_true (fun _ : unit => name_iteration) tt.

Definition int_or_raise (s : string) : M Z :=
  match int s with
  | Some n => ret n
  | None => raise (Error ValueError)
  end.

(** One round of the second loop of [get_collection_config]: the vector
    size. *)
Definition size_iteration : M (step unit Z) :=
  try_except
    (line <- input AskVectorSize ;;
     let text := strip line in
     vector_size <- (if String.eqb text "" then ret 1536%Z else int_or_raise text) ;;
     if (vector_size <=? 0)%Z then print SizeNotPositive ;; ret (Continue tt)
     else if (65536 <? vector_size)%Z then
       print SizeVeryLarge ;;
       confirm <- input AskLargeSize ;;
       if negb (answered_yes confirm) then ret (Continue tt)
       else ret (Break vector_size)
     else ret (Break vector_size))
    (except_ValueError (print InvalidNumber ;; ret (Continue tt))).

Definition size_prompt : M Z := while_true (fun _ : unit => size_iteration) tt.

Definition distance_options (choice : string) : option string :=
  if String.eqb choice "1" then Some "Cosine"
  else if String.eqb choice "2" then Some "Euclidean"
  else if String.eqb choice "3" then Some "Dot"
  else None.

(** The third loop of [get_collection_config]: the distance function. *)
Definition distance_prompt : M string :=
  while_true (fun _ : unit =>
    line <- input AskDistance ;;
    let choice := strip line in
    let choice := if String.eqb choice "" then "1" else choice in
    match distance_options choice with
    | Some metric => ret (Break metric)
    | None => print DistanceInvalid ;; ret (Continue tt)
    end) tt.

Definition get_collection_config : M (option (string * vectors_config)) :=
  print ConfigHeader ;;
  try_except
    (entered <- name_prompt ;;
     print SizeHints ;;
     vector_size <- size_prompt ;;
     print DistanceMenu ;;
     metric <- distance_prompt ;;
     let config := {| size := vector_size; distance := metric |} in
     print (Summary entered vector_size metric) ;;
     confirm <- input AskCreate ;;
     if answered_yes confirm then ret (Some (entered, config))
     else print CreateCancelled ;; ret None)
    (except_KeyboardInterrupt (print Cancelled ;; ret None)).

Definition create_collection (collection_name : string) (config : vectors_config)
  : M bool :=
  try_except
    (print (Creating collection_name) ;;
     response <- send (create_request collection_name config) ;;
     if (status_code response =? 200)%Z || (status_code response =? 201)%Z then
       data <- json_of response ;;
       if result_is_true data
       then print (Created collection_name) ;; ret true
       else print (CreateRefused collection_name) ;; ret false
     else print (CreateHttpError (status_code response)) ;; ret false)
    (except_Exception (fun kind => print (CreateFailed collection_name kind) ;; ret false)).

Definition get_collection_info (collection_name : string) : M (option result_value) :=
  try_except
    (response <- send (info_request collection_name) ;;
     if (status_code response =? 200)%Z then
       data <- json_of response ;;
       if status_ok data then ret (body_result data) else ret None
     else ret None)
    (except_Exception (fun _ => ret None)).

(** [if info:] on what [get_collection_info] returned. *)
Definition info_truthy (info : option result_value) : bool :=
  match info with
  | Some ResultTrue | Some (ResultListing _) | Some (ResultInfo _)
  | Some ResultScalar => true
  | _ => false
  end.

Definition no_info : collection_info :=
  {| info_status := None; info_vectors_count := None;
     info_indexed_vectors_count := None; info_size := None;
     info_distance := None; info_optimizer_config := false |}.

(** The [info.get(...)] reads: they need [info] to be an object. *)
Definition info_fields (info : option result_value) : M collection_info :=
  match info with
  | Some (ResultInfo i) => ret i
  | Some (ResultListing _) | Some ResultEmptyObject => ret no_info
  | _ => raise (Error AttributeError)
  end.

(** The body of the [for num_str in numbers] loop of [get_user_selection]. *)
Definition select_number (collections : list collection)
  (num_str : string) (selected_collections : list string)
  : M (step (list string) (option (list string))) :=
  try_except
    (num <- int_or_raise num_str ;;
     if (1 <=? num)%Z && (num <=? Z.of_nat (length collections))%Z then
       match nth_error collections (Z.to_nat (num - 1)) with
       | Some col =>
           let collection_name := name col in
           if mem collection_name selected_collections
           then ret (Continue selected_collections)
           else ret (Continue (selected_collections ++ [collection_name]))
       | None => raise (Error IndexError)
       end
     else print (OutOfRange num (length collections)) ;; ret (Break None))
    (except_ValueError (print (InvalidToken num_str) ;; ret (Break None))).

(** One round of the [while True] of [get_user_selection]. *)
Definition selection_iteration (collections : list collection) (action : string)
  : M (step unit (option (list string))) :=
  try_except
    (line <- input (AskSelection action) ;;
     let selection := strip line in
     if String.eqb selection "" then print SelectionEmpty ;; ret (Continue tt)
     else if mem (lower selection) ["q"; "quit"; "exit"] then ret (Break None)
     else if String.eqb action "borrar" && mem (lower selection) ["all"; "*"; "todas"]
     then ret (Break (Some (map name collections)))
     else
       let numbers := map strip (split_comma selection) in
       picked <- for_each_until numbers (select_number collections) [] ;;
       match picked with
       | Break early => ret (Break early)
       | Continue [] => print NothingSelected ;; ret (Continue tt)
       | Continue selected_collections => ret (Break (Some selected_collections))
       end)
    (except_KeyboardInterrupt (print Cancelled ;; ret (Break None))).

Definition get_user_selection (collections : list collection) (action : string)
  : M (option (list string)) :=
  print (SelectionHelp action) ;;
  while_true (fun _ : unit => selection_iteration collections action) tt.

Definition confirm_deletion (collections_to_delete : list string) : M bool :=
  print (DeletionWarning collections_to_delete) ;;
  while_true (fun _ : unit =>
    line <- input AskDeletion ;;
    let confirmation := lower (strip line) in
    if mem confirmation yes_words then ret (Break true)
    else if mem confirmation ["n"; "no"] then ret (Break false)
    else print AnswerYesOrNo ;; ret (Continue tt)) tt.

Definition delete_collection (collection_name : string) : M bool :=
  try_except
    (response <- send (delete_request collection_name) ;;
     if (status_code response =? 200)%Z then
       data <- json_of response ;;
       if result_is_true data then ret true
       else print (DeleteRefused collection_name) ;; ret false
     else print (DeleteHttpError (status_code response) collection_name) ;; ret false)
    (except_Exception (fun kind => print (DeleteFailed collection_name kind) ;; ret false)).

(** The body of the [for] loop of [delete_collections]. *)
Definition delete_item (collection_name : string) (lists : list string * list string)
  : M (list string * list string) :=
  let '(successful, failed) := lists in
  print (Deleting collection_name) ;;
  deleted <- delete_collection collection_name ;;
  lists' <- (if deleted
             then print ItemOk ;; ret (successful ++ [collection_name], failed)
             else print ItemError ;; ret (successful, failed ++ [collection_name])) ;;
  sleep 500 ;;
  ret lists'.

Definition delete_collections (collections_to_delete : list string)
  : M (list string * list string) :=
  print DeleteStart ;;
  for_each collections_to_delete delete_item ([], []).

Definition display_results (successful failed : list string) (operation : string)
  : M unit :=
  print (Results successful failed operation).

Definition show_collection_details (collections : list collection) : M unit :=
  selected <- get_user_selection collections "ver detalles" ;;
  match selected with
  | None | Some [] => ret tt
  | Some names =>
      for_each names
        (fun collection_name _ =>
           info <- get_collection_info collection_name ;;
           if info_truthy info then
             fields <- info_fields info ;;
             print (Details collection_name fields)
           else print (DetailsUnavailable collection_name))
        tt
  end.

Definition show_main_menu : M string :=
  print Menu ;;
  while_true (fun _ : unit =>
    try_except
      (line <- input AskMenu ;;
       let choice := strip line in
       if mem choice ["1"; "2"; "3"; "4"; "5"] then ret (Break choice)
       else print InvalidOption ;; ret (Continue tt))
      (except_KeyboardInterrupt (print Leaving ;; ret (Break "5")))) tt.

(** The local variable [collections] of [run]: it outlives an iteration
    of the menu loop, and is assigned by choices 1, 3 and 4. *)
Definition collections_var : Type := local (option (list collection)).

(** What choice 1 does with the listing it fetched. *)
Definition list_branch (fetched : option (list collection)) : M unit :=
  match fetched with
  | None => print ListUnavailable
  | Some listing => display_collections listing
  end.

(** Choice 2, the create flow. *)
Definition create_branch : M unit :=
  collection_config <- get_collection_config ;;
  match collection_config with
  | Some (entered, config) =>
      created <- create_collection entered config ;;
      if created then
        print Verifying ;;
        sleep 1000 ;;
        info <- get_collection_info entered ;;
        if info_truthy info then
          fields <- info_fields info ;;
          print (CreatedOk entered (info_status fields))
        else ret tt
      else ret tt
  | None => ret tt
  end.

(** What choice 3 does with the listing it fetched. *)
Definition details_branch (fetched : option (list collection)) : M unit :=
  match fetched with
  | None => print ListUnavailable
  | Some [] => print NothingToShow
  | Some listing =>
      display_collections listing ;;
      show_collection_details listing
  end.

(** What choice 4 does with the listing it fetched. *)
Definition delete_branch (fetched : option (list collection)) : M unit :=
  match fetched with
  | None => print ListUnavailable
  | Some [] => print NothingToDelete
  | Some listing =>
      display_collections listing ;;
      selected <- get_user_selection listing "borrar" ;;
      match selected with
      | None | Some [] => ret tt
      | Some names =>
          confirmed <- confirm_deletion names ;;
          if confirmed then
            lists <- delete_collections names ;;
            display_results (fst lists) (snd lists) "borrado"
          else print DeletionCancelled
      end
  end.

(** The [if choice == ...] chain of [run]: choices 1, 3 and 4 assign the
    variable [collections], choice 2 leaves it as it was. *)
Definition menu_action (choice : string) (collections : collections_var)
  : M collections_var :=
  if String.eqb choice "1" then
    print Fetching ;;
    fetched <- get_collections ;;
    list_branch fetched ;;
    ret (Bound fetched)
  else if String.eqb choice "2" then
    create_branch ;;
    ret collections
  else if String.eqb choice "3" then
    fetched <- get_collections ;;
    details_branch fetched ;;
    ret (Bound fetched)
  else if String.eqb choice "4" then
    fetched <- get_collections ;;
    delete_branch fetched ;;
    ret (Bound fetched)
  else ret collections.

(** One round of the [while True] of [run]: menu, action, pause. *)
Definition menu_iteration (collections : collections_var)
  : M (step collections_var unit) :=
  choice <- show_main_menu ;;
  if String.eqb choice "5" then ret (Break tt)
  else
    collections' <- menu_action choice collections ;;
    _ <- input AskContinue ;;
    ret (Continue collections').

Definition menu_loop : M unit := while_true menu_iteration Unbound.

Definition run : M unit :=
  print Banner ;;
  reachable <- test_connection ;;
  if negb reachable then print NoConnection ;; sys_exit 1
  else
    try_except menu_loop
      (fun e =>
         match e with
         | KeyboardInterrupt => Some (print Interrupted)
         | Error kind => Some (print (Unexpected kind) ;; print Traceback)
         | SystemExit _ => None
         end) ;;
    print Goodbye.

End Manager.

Definition main (env : environ) : M unit :=
  try_except
    (manager <- init env ;; run manager)
    (except_Exception (fun kind => print (Fatal kind) ;; sys_exit 1)).

(** The status the process ends with, from how [main] ends. *)
Definition exit_status (r : outcome unit) : option Z :=
  match r with
  | Ret _ => Some 0%Z
  | Raise (SystemExit code) => Some code
  | Raise (Error _) => Some 1%Z
  | Raise KeyboardInterrupt => Some 130%Z
  | OutOfFuel => None
  end.

(** ** Reading the trace *)

Definition requests_of (events : list event) : list request :=
  flat_map (fun ev => match ev with Requested r => [r] | _ => [] end) events.

Definition is_create_request (r : request) : bool :=
  match method r with PUT => true | _ => false end.

(** ** Vocabulary of the properties *)

(** The comma-separated fields of a selection, as the parser reads them. *)
Definition tokens (line : string) : list string :=
  map PyStr.strip (PyStr.split_comma (PyStr.strip line)).

(** A field that [int] reads and that lies within [1..len(collections)]. *)
Definition valid_index (collections : list collection) (token : string) : bool :=
  match PyStr.int token with
  | Some num => (1 <=? num)%Z && (num <=? Z.of_nat (length collections))%Z
  | None => false
  end.

(** The name a 1-based index maps to in the listing. *)
Definition index_name (collections : list collection) (token : string) : string :=
  match PyStr.int token with
  | Some num =>
      match nth_error collections (Z.to_nat (num - 1)) with
      | Some col => name col
      | None => ""
      end
  | None => ""
  end.

(** Following the spec's words: duplicates removed, the order of first
    occurrence preserved. *)
Fixpoint first_occurrences (names : list string) : list string :=
  match names with
  | [] => []
  | x :: rest =>
      x :: filter (fun y => negb (String.eqb y x)) (first_occurrences rest)
  end.

(** Whether the service's reply to a delete request counts as a success
    for [delete_collection]. *)
Definition accepts_delete (reply : http_reply) : bool :=
  match reply with
  | Response code (Some data) => (code =? 200)%Z && result_is_true data
  | _ => false
  end.

(** The reply the service gives to the [i]-th request from now on. *)
Definition reply_at (replies : list http_reply) (i : nat) : http_reply :=
  nth i replies (Fails ConnectionError).

(** Following the spec's words: the succeeded / failed partition of a
    batch, given the outcome of each item's own delete call. *)
Fixpoint partition_by (names : list string) (outcomes : list bool)
  : list string * list string :=
  match names, outcomes with
  | nm :: names', ok :: outcomes' =>
      let '(succeeded, failed) := partition_by names' outcomes' in
      if ok then (nm :: succeeded, failed) else (succeeded, nm :: failed)
  | _, _ => ([], [])
  end.

(** [not self.host]: the host variable is unset or empty. *)
Definition host_missing (env : environ) : bool :=
  negb (truthy (QDRANT_HOST env)).

(** The first reply of the service is not a 200 (or there is none). *)
Definition unreachable (replies : list http_reply) : bool :=
  match replies with
  | Response code _ :: _ => negb (code =? 200)%Z
  | _ => true
  end.

(** Startup fails when the manager cannot be built from the environment
    (the environment file cannot be loaded, or there is no host) or when
    the connectivity check fails. *)
Definition startup_fails (env : environ) (w : world) : bool :=
  negb (dotenv_loads env) || host_missing env || unreachable (service w).

(** The service's reply to a list request that carries a listing. *)
Definition listing_reply (collections : list collection) : http_reply :=
  Response 200
    (Some {| body_status := Some "ok";
             body_result := Some (ResultListing collections) |}).

(** The service's reply to a create or delete request it carried out. *)
Definition accepted_reply : http_reply :=
  Response 200 (Some {| body_status := Some "ok"; body_result := Some ResultTrue |}).

(** A listing entry that carries only its name. *)
Definition entry (nm : string) : collection :=
  {| name := nm; vectors_count := None; status := None |}.

(** An environment with a host and no credentials, and its manager. *)
Definition sample_environ : environ :=
  {| dotenv_loads := true; QDRANT_HOST := Some "localhost"; QDRANT_PORT := None;
     QDRANT_USER := None; QDRANT_PASSWORD := None |}.

Definition sample_manager : manager :=
  {| host := "localhost"; port := "6333"; user := None; password := None;
     base_url := "http://localhost:6333"; auth := None |}.

(** The messages [get_collections] itself prints. *)
Definition list_note (m : message) : bool :=
  match m with
  | ListBadStatus | ListHttpError _ | ListFailed _ => true
  | _ => false
  end.

(** With these replies pending, the list operation returns no result. *)
Definition list_fails (self : manager) (replies : list http_reply) : Prop :=
  forall inp tr,
    fst (get_collections self {| stdin := inp; service := replies; trace := tr |})
    = Ret None.

(** The configuration the create flow builds from its defaults. *)
Definition default_config : vectors_config :=
  {| size := 1536; distance := "Cosine" |}.

(** How a round of a loop ends, its loop variables left out. *)
Definition control {L A} (r : outcome (step L A)) : outcome (step unit A) :=
  match r with
  | Ret (Continue _) => Ret (Continue tt)
  | Ret (Break a) => Ret (Break a)
  | Raise e => Raise e
  | OutOfFuel => OutOfFuel
  end.

(** The menu choices whose action works on the collection list. *)
Definition listing_choices : list string := ["1"; "3"; "4"].

(** The characters that [lower] sends to [c]. *)
Definition unlower (c : ascii) : list ascii :=
  let n := nat_of_ascii c in
  if (97 <=? n)%nat && (n <=? 122)%nat then [c; ascii_of_nat (n - 32)]
  else if (65 <=? n)%nat && (n <=? 90)%nat then []
  else [c].

(** The strings that [lower] sends to [s]. *)
Fixpoint case_variants (s : string) : list string :=
  match s with
  | EmptyString => [EmptyString]
  | String c r =>
      flat_map (fun r' => map (fun c' => String c' r') (unlower c)) (case_variants r)
  end.

(** A selection all of whose fields [int] reads. *)
Definition numeric_fields (selection : string) : bool :=
  forallb (fun token => match PyStr.int token with Some _ => true | None => false end)
    (map PyStr.strip (PyStr.split_comma selection)).

(** What [selected_collections] becomes when one more name is picked. *)
Definition pick (selected : list string) (collection_name : string) : list string :=
  if PyStr.mem collection_name selected then selected
  else selected ++ [collection_name].

(** ** Vocabulary of the further properties *)

(** [ensures m Q]: whenever [m] returns, its value and the world it leaves
    satisfy [Q]. *)
Definition ensures {A} (m : M A) (Q : A -> world -> Prop) : Prop :=
  forall w a w', m w = (Ret a, w') -> Q a w'.

(** [uninterrupted m]: no [KeyboardInterrupt] leaves [m]. *)
Definition uninterrupted {A} (m : M A) : Prop :=
  forall w, fst (m w) <> Raise KeyboardInterrupt.

(** The distance functions the create flow offers. *)
Definition metrics : list string := ["Cosine"; "Euclidean"; "Dot"].

(** The answers the main menu takes. *)
Definition menu_choices : list string := ["1"; "2"; "3"; "4"; "5"].

(** What a loop's round must ensure for the loop to ensure [Q]. *)
Definition on_break {L A} (Q : A -> world -> Prop) (c : step L A) (w : world) : Prop :=
  match c with
  | Break a => Q a w
  | Continue _ => True
  end.

(** The listing a reply to the list request stands for, if any. *)
Definition listing_of (reply : http_reply) : option (list collection) :=
  match reply with
  | Response code (Some data) =>
      if (code =? 200)%Z && status_ok data then
        match body_result data with
        | None => Some []
        | Some (ResultListing collections) => Some collections
        | Some (ResultInfo _) | Some ResultEmptyObject => Some []
        | Some ResultTrue | Some ResultFalsy | Some ResultScalar => None
        end
      else None
  | _ => None
  end.

(** The description a reply to the detail request stands for, if any. *)
Definition info_of (reply : http_reply) : option result_value :=
  match reply with
  | Response code (Some data) =>
      if (code =? 200)%Z && status_ok data then body_result data else None
  | _ => None
  end.

(** Whether the service's reply to a create request counts as a success
    for [create_collection]. *)
Definition accepts_create (reply : http_reply) : bool :=
  match reply with
  | Response code (Some data) =>
      ((code =? 200)%Z || (code =? 201)%Z) && result_is_true data
  | _ => false
  end.

(** No pending console line is a yes. *)
Definition never_yes (inp : list console_event) : Prop :=
  forall answer, In (Line answer) inp -> answered_yes answer = false.

(** Every request logged so far only reads from the service. *)
Definition only_reads (evs : list event) : Prop :=
  forall r, In r (requests_of evs) -> method r = GET.

(** What a loop's round must return for the loop to return a [Q]. *)
Definition breaks_with {L A} (Q : A -> Prop) (c : step L A) : Prop :=
  match c with
  | Break a => Q a
  | Continue _ => True
  end.

(** [harmless m Q]: run on input without a yes, after reads only, [m]
    leaves input without a yes, has only read, and returns a [Q] if it
    returns. *)
Definition harmless {A} (m : M A) (Q : A -> Prop) : Prop :=
  forall w,
    never_yes (stdin w) -> only_reads (trace w) ->
    never_yes (stdin (snd (m w))) /\ only_reads (trace (snd (m w))) /\
    forall a, fst (m w) = Ret a -> Q a.

(** An answer the deletion prompt takes: a yes or a no. *)
Definition decides (answer : string) : bool :=
  PyStr.mem (PyStr.lower (PyStr.strip answer)) (yes_words ++ ["n"; "no"]).

(** A session in which nobody says yes: create and delete are both tried
    and both declined. *)
Definition declining_session : world :=
  {| stdin := [Line "2"; Line "docs"; Line ""; Line ""; Line "n"; Line "";
               Line "4"; Line "all"; Line "maybe"; Line "no"; Line ""; Line "5"];
     service := [Response 200 None; listing_reply [entry "old"];
                 listing_reply [entry "old"]];
     trace := [] |}.

(** An environment with a host, a port and both credentials. *)
Definition secured_environ : environ :=
  {| dotenv_loads := true; QDRANT_HOST := Some "qdrant.local";
     QDRANT_PORT := Some "6334"; QDRANT_USER := Some "admin";
     QDRANT_PASSWORD := Some "secret" |}.

(** [reads m]: after reads only, [m] has only read, whatever the user
    types. *)
Definition reads {A} (m : M A) : Prop :=
  forall w, only_reads (trace w) -> only_reads (trace (snd (m w))).

(** The menu choices that show collections. *)
Definition viewing_choices : list string := ["1"; "3"].

(** Every line still to come is ASCII text. *)
Definition ascii_lines (inp : list console_event) : Prop :=
  forall line, In (Line line) inp -> PyStr.isascii line = true.

(** A reply to the list request that [get_collections] reports as an
    error: a failed request, a status other than 200, a body that is no JSON
    object, a status member other than [ok], a result that is no object. *)
Definition faulty (reply : http_reply) : bool :=
  match reply with
  | Fails _ => true
  | Response _ None => true
  | Response code (Some data) =>
      negb (code =? 200)%Z || negb (status_ok data)
      || match body_result data with
         | Some ResultTrue | Some ResultFalsy | Some ResultScalar => true
         | _ => false
         end
  end.

(** What menu choices 1, 3 and 4 do with the listing they fetched. *)
Definition listing_branch (self : manager) (choice : string)
  (fetched : option (list collection)) : M unit :=
  if String.eqb choice "1" then list_branch fetched
  else if String.eqb choice "3" then details_branch self fetched
  else delete_branch self fetched.

(** [rounds body l w l' w']: the loop that starts with the variables [l] in
    the world [w] comes, after some rounds that all continue, to the
    variables [l'] in the world [w']. *)
Inductive rounds {L A} (body : L -> M (step L A)) : L -> world -> L -> world -> Prop :=
| rounds_here (l : L) (w : world) : rounds body l w l w
| rounds_next (l l1 l' : L) (w w1 w' : world) :
    body l w = (Ret (Continue l1), w1) ->
    rounds body l1 w1 l' w' ->
    rounds body l w l' w'.

(** * Properties *)

(** ** The loops terminate, and what every method leaves alone *)

(** What a well-behaved computation does from the world [w]: it does not
    run out of fuel, does not stop the process, gives no input back and
    only adds to the trace. *)
Record tame_at {A} (m : M A) (w : world) : Prop := {
  no_fuel_out : fst (m w) <> OutOfFuel;
  no_exit : forall code, fst (m w) <> Raise (SystemExit code);
  stdin_le : length (stdin (snd (m w))) <= length (stdin w);
  trace_ext : exists evs, trace (snd (m w)) = trace w ++ evs
}.

Definition tame {A} (m : M A) : Prop := forall w, tame_at m w.

(** [consumes m]: moreover [m] takes at least one console event, unless it
    stops on a closed input. *)
Definition consumes {A} (m : M A) : Prop :=
  forall w,
    tame_at m w /\
    (fst (m w) <> Raise (Error EOFError) ->
     length (stdin (snd (m w))) < length (stdin w)).

Lemma consumes_tame {A} (m : M A) : consumes m -> tame m.
Proof. intros H w. apply H. Qed.

Lemma tame_at_intro {A} (m : M A) (w : world) (r : outcome A) (w' : world) :
  m w = (r, w') ->
  r <> OutOfFuel -> (forall code, r <> Raise (SystemExit code)) ->
  length (stdin w') <= length (stdin w) ->
  (exists evs, trace w' = trace w ++ evs) ->
  tame_at m w.
Proof. intros E H1 H2 H3 H4. constructor; rewrite E; simpl; assumption. Qed.

Lemma tame_at_inv {A} (m : M A) (w : world) (r : outcome A) (w' : world) :
  tame_at m w -> m w = (r, w') ->
  r <> OutOfFuel /\ (forall code, r <> Raise (SystemExit code)) /\
  length (stdin w') <= length (stdin w) /\
  exists evs, trace w' = trace w ++ evs.
Proof. intros [H1 H2 H3 H4] E. rewrite E in *. simpl in *. auto. Qed.

Lemma trace_ext_trans (w w' w'' : world) :
  (exists evs, trace w' = trace w ++ evs) ->
  (exists evs, trace w'' = trace w' ++ evs) ->
  exists evs, trace w'' = trace w ++ evs.
Proof.
  intros [evs H] [evs' H']. exists (evs ++ evs').
  rewrite H', H. apply eq_sym, app_assoc.
Qed.

Lemma tame_ret {A} (a : A) : tame (ret a).
Proof.
  intro w. apply (tame_at_intro _ _ (Ret a) w); try reflexivity; try discriminate.
  exists []. now rewrite app_nil_r.
Qed.

Lemma tame_raise_error {A} (kind : error_kind) : tame (@raise A (Error kind)).
Proof.
  intro w. apply (tame_at_intro _ _ (Raise (Error kind)) w);
    try reflexivity; try discriminate.
  exists []. now rewrite app_nil_r.
Qed.

Lemma tame_emit (ev : event) : tame (emit ev).
Proof.
  intro w. apply (tame_at_intro _ _ (Ret tt) (record ev w));
    try reflexivity; try discriminate.
  exists [ev]. reflexivity.
Qed.

Lemma tame_print (m : message) : tame (print m).
Proof. apply tame_emit. Qed.

Lemma tame_sleep (ms : Z) : tame (sleep ms).
Proof. apply tame_emit. Qed.

Lemma tame_send (r : request) : tame (send r).
Proof.
  intro w. destruct (send r w) as [o w'] eqn:E.
  apply (tame_at_intro _ _ o w' E); revert E; unfold send, record; cbn zeta;
    destruct (service w) as [|[kind|code data] rest]; intro E;
    injection E as <- <-; simpl; try discriminate; try lia;
    exists [Requested r]; reflexivity.
Qed.

Lemma consumes_input (p : prompt) : consumes (input p).
Proof.
  intro w. destruct (input p w) as [o w'] eqn:E. split.
  - apply (tame_at_intro _ _ o w' E); revert E; unfold input, record; cbn zeta;
      destruct (stdin w) as [|[text| |] rest]; intro E;
      injection E as <- <-; simpl; try discriminate; try lia;
      exists [Prompted p]; reflexivity.
  - simpl. revert E. unfold input, record. cbn zeta.
    destruct (stdin w) as [|[text| |] rest]; intro E;
      injection E as <- <-; simpl; intro H; try lia; congruence.
Qed.

Lemma tame_bind {A B} (m : M A) (f : A -> M B) :
  tame m -> (forall a, tame (f a)) -> tame (bind m f).
Proof.
  intros Hm Hf w.
  destruct (m w) as [o w'] eqn:E.
  destruct (tame_at_inv _ _ _ _ (Hm w) E) as (H1 & H2 & H3 & H4).
  destruct o as [a|e|]; [| | tauto].
  - destruct (f a w') as [o' w''] eqn:E'.
    destruct (tame_at_inv _ _ _ _ (Hf a w') E') as (G1 & G2 & G3 & G4).
    apply (tame_at_intro _ _ o' w''); auto.
    + unfold bind. rewrite E. exact E'.
    + lia.
    + apply (trace_ext_trans w w' w''); assumption.
  - apply (tame_at_intro _ _ (Raise e) w'); auto.
    + unfold bind. rewrite E. reflexivity.
    + discriminate.
    + intros code H. apply (H2 code). congruence.
Qed.

Lemma consumes_bind {A B} (m : M A) (f : A -> M B) :
  consumes m -> (forall a, tame (f a)) -> consumes (bind m f).
Proof.
  intros Hm Hf w. split.
  - apply tame_bind; [apply consumes_tame, Hm | exact Hf].
  - unfold bind. destruct (Hm w) as [_ Hlt].
    destruct (m w) as [[a|e|] w']; simpl in *.
    + destruct (Hf a w') as [_ _ G3 _].
      assert (length (stdin w') < length (stdin w)) by (apply Hlt; discriminate).
      intros _. lia.
    + intro H. apply Hlt. congruence.
    + intros _. apply Hlt. discriminate.
Qed.

Lemma consumes_after_print {A} (msg : message) (k : M A) :
  consumes k -> consumes (print msg ;; k).
Proof.
  intros Hk w. split.
  - apply tame_bind; [apply tame_print | intro; apply consumes_tame, Hk].
  - unfold bind, print, emit.
    destruct (Hk (record (Printed msg) w)) as [_ Hlt]. exact Hlt.
Qed.

Lemma tame_try_except {A} (m : M A) (handler : exn -> option (M A)) :
  tame m -> (forall e h, handler e = Some h -> tame h) ->
  tame (try_except m handler).
Proof.
  intros Hm Hh w.
  destruct (m w) as [o w'] eqn:E.
  destruct (tame_at_inv _ _ _ _ (Hm w) E) as (H1 & H2 & H3 & H4).
  destruct o as [a|e|]; [| | tauto].
  - apply (tame_at_intro _ _ (Ret a) w'); auto.
    unfold try_except. rewrite E. reflexivity.
  - destruct (handler e) as [h|] eqn:Eh.
    + destruct (h w') as [o' w''] eqn:E'.
      destruct (tame_at_inv _ _ _ _ (Hh e h Eh w') E') as (G1 & G2 & G3 & G4).
      apply (tame_at_intro _ _ o' w''); auto.
      * unfold try_except. rewrite E, Eh. exact E'.
      * lia.
      * apply (trace_ext_trans w w' w''); assumption.
    + apply (tame_at_intro _ _ (Raise e) w'); auto.
      unfold try_except. rewrite E, Eh. reflexivity.
Qed.

Lemma consumes_try_except {A} (m : M A) (handler : exn -> option (M A)) :
  consumes m ->
  (forall e h, handler e = Some h -> e <> Error EOFError /\ tame h) ->
  consumes (try_except m handler).
Proof.
  intros Hm Hh w. split.
  - apply tame_try_except; [apply consumes_tame, Hm |].
    intros e h E. apply (Hh e h E).
  - unfold try_except. destruct (Hm w) as [_ Hlt].
    destruct (m w) as [[a|e|] w']; simpl in *; try assumption.
    destruct (handler e) as [h|] eqn:Eh; simpl; [| assumption].
    destruct (Hh e h Eh) as [Hne Ht]. destruct (Ht w') as [_ _ G3 _].
    assert (length (stdin w') < length (stdin w)) by (apply Hlt; congruence).
    intros _. lia.
Qed.

Lemma while_fuel_consumes {L A} (body : L -> M (step L A)) :
  (forall l, consumes (body l)) ->
  forall fuel l w,
    length (stdin w) < fuel ->
    tame_at (while_fuel fuel body l) w /\
    (fst (while_fuel fuel body l w) <> Raise (Error EOFError) ->
     length (stdin (snd (while_fuel fuel body l w))) < length (stdin w)).
Proof.
  intros Hbody fuel. induction fuel as [|n IH]; intros l w Hlen; [lia |].
  destruct (Hbody l w) as [Ht Hlt].
  destruct (body l w) as [o w'] eqn:E.
  destruct (tame_at_inv _ _ _ _ Ht E) as (H1 & H2 & H3 & H4).
  simpl in Hlt.
  destruct o as [[l'|a]|e|]; [| | | tauto].
  - assert (Hw' : length (stdin w') < length (stdin w)) by (apply Hlt; discriminate).
    destruct (IH l' w') as [Gt Glt]; [lia |].
    destruct (while_fuel n body l' w') as [o' w''] eqn:E'.
    destruct (tame_at_inv _ _ _ _ Gt E') as (G1 & G2 & G3 & G4).
    assert (Eq : while_fuel (S n) body l w = (o', w''))
      by (simpl; unfold bind; rewrite E; exact E').
    split.
    + apply (tame_at_intro _ _ o' w'' Eq); auto; [lia |].
      apply (trace_ext_trans w w' w''); assumption.
    + rewrite Eq. simpl. intros _. lia.
  - assert (Hw' : length (stdin w') < length (stdin w)) by (apply Hlt; discriminate).
    assert (Eq : while_fuel (S n) body l w = (Ret a, w'))
      by (simpl; unfold bind; rewrite E; reflexivity).
    split.
    + apply (tame_at_intro _ _ (Ret a) w' Eq); auto; discriminate.
    + rewrite Eq. simpl. intros _. assumption.
  - assert (Eq : while_fuel (S n) body l w = (Raise e, w'))
      by (simpl; unfold bind; rewrite E; reflexivity).
    split.
    + apply (tame_at_intro _ _ (Raise e) w' Eq); auto; [discriminate |].
      intros code H. apply (H2 code). congruence.
    + rewrite Eq. simpl. intro H. apply Hlt. congruence.
Qed.

Lemma consumes_while_true {L A} (body : L -> M (step L A)) (l : L) :
  (forall l, consumes (body l)) -> consumes (while_true body l).
Proof.
  intros Hbody w.
  destruct (while_fuel_consumes body Hbody (S (length (stdin w))) l w) as [Ht Hlt];
    [lia |].
  split; [| exact Hlt].
  destruct Ht as [H1 H2 H3 H4]. constructor; assumption.
Qed.

Lemma tame_while_true {L A} (body : L -> M (step L A)) (l : L) :
  (forall l, consumes (body l)) -> tame (while_true body l).
Proof. intro H. apply consumes_tame, consumes_while_true, H. Qed.

Lemma tame_for_each {X L} (xs : list X) (body : X -> L -> M L) :
  (forall x l, tame (body x l)) -> forall l, tame (for_each xs body l).
Proof.
  intro Hbody. induction xs as [|x rest IH]; intro l; simpl.
  - apply tame_ret.
  - apply tame_bind; [apply Hbody | intro; apply IH].
Qed.

Lemma tame_for_each_until {X L A} (xs : list X) (body : X -> L -> M (step L A)) :
  (forall x l, tame (body x l)) -> forall l, tame (for_each_until xs body l).
Proof.
  intro Hbody. induction xs as [|x rest IH]; intro l; simpl.
  - apply tame_ret.
  - apply tame_bind; [apply Hbody |].
    intros [l'|a]; [apply IH | apply tame_ret].
Qed.

(** With enough fuel, more fuel changes nothing. *)
Lemma while_fuel_enough {L A} (body : L -> M (step L A)) :
  (forall l, consumes (body l)) ->
  forall n m l w,
    length (stdin w) < n -> length (stdin w) < m ->
    while_fuel n body l w = while_fuel m body l w.
Proof.
  intros Hbody n. induction n as [|n IH]; intros m l w Hn Hm; [lia |].
  destruct m as [|m]; [lia |].
  simpl. unfold bind.
  destruct (Hbody l w) as [_ Hlt].
  destruct (body l w) as [[[l'|a]|e|] w']; simpl in *; try reflexivity.
  assert (length (stdin w') < length (stdin w)) by (apply Hlt; discriminate).
  apply IH; lia.
Qed.

(** The loop, one iteration at a time. *)
Lemma while_true_unfold {L A} (body : L -> M (step L A)) (l : L) (w : world) :
  (forall l, consumes (body l)) ->
  while_true body l w =
  match body l w with
  | (Ret (Continue l'), w') => while_true body l' w'
  | (Ret (Break a), w') => (Ret a, w')
  | (Raise e, w') => (Raise e, w')
  | (OutOfFuel, w') => (OutOfFuel, w')
  end.
Proof.
  intro Hbody. unfold while_true at 1. simpl. unfold bind.
  destruct (Hbody l w) as [_ Hlt].
  destruct (body l w) as [[[l'|a]|e|] w']; simpl in *; try reflexivity.
  assert (length (stdin w') < length (stdin w)) by (apply Hlt; discriminate).
  unfold while_true. apply while_fuel_enough; [assumption | lia | lia].
Qed.

Lemma bind_run {A B} (m : M A) (f : A -> M B) (w : world) :
  bind m f w =
  match m w with
  | (Ret a, w') => f a w'
  | (Raise e, w') => (Raise e, w')
  | (OutOfFuel, w') => (OutOfFuel, w')
  end.
Proof. reflexivity. Qed.

Create HintDb tame.

Ltac handler_cases e H :=
  destruct e as [| ? | []]; simpl in H; try discriminate H;
  injection H as <-.

Ltac tame_step :=
  match goal with
  | |- tame (ret _) => apply tame_ret
  | |- tame (raise (Error _)) => apply tame_raise_error
  | |- tame (print _) => apply tame_print
  | |- tame (sleep _) => apply tame_sleep
  | |- tame (send _) => apply tame_send
  | |- tame (input _) => apply consumes_tame, consumes_input
  | |- tame (bind _ _) => apply tame_bind; [| intros]
  | |- tame (try_except _ _) =>
      apply tame_try_except;
      [| let e := fresh "e" in let h := fresh "h" in let H := fresh "H" in
         intros e h H; handler_cases e H]
  | |- tame (for_each _ _ _) => apply tame_for_each; intros
  | |- tame (for_each_until _ _ _) => apply tame_for_each_until; intros
  | |- tame (while_true _ _) => apply tame_while_true; intros
  | |- consumes (input _) => apply consumes_input
  | |- consumes (bind (print _) _) => apply consumes_after_print
  | |- consumes (bind _ _) => apply consumes_bind; [| intros]
  | |- consumes (try_except _ _) =>
      apply consumes_try_except;
      [| let e := fresh "e" in let h := fresh "h" in let H := fresh "H" in
         intros e h H; handler_cases e H; split; [discriminate |]]
  | |- consumes (while_true _ _) => apply consumes_while_true; intros
  | |- tame (if ?b then _ else _) => destruct b
  | |- tame (match ?x with _ => _ end) => destruct x
  | |- _ => solve [auto with tame]
  end.

Ltac tame_tac := repeat (cbv zeta; tame_step).

Section Termination.

Variable self : manager.

Lemma tame_json_of r : tame (json_of r).
Proof. unfold json_of. tame_tac. Qed.
Hint Resolve tame_json_of : tame.

Lemma tame_collections_of data : tame (collections_of data).
Proof. unfold collections_of. tame_tac. Qed.
Hint Resolve tame_collections_of : tame.

Lemma tame_int_or_raise s : tame (int_or_raise s).
Proof. unfold int_or_raise. tame_tac. Qed.
Hint Resolve tame_int_or_raise : tame.

Lemma tame_info_fields info : tame (info_fields info).
Proof. unfold info_fields. tame_tac. Qed.
Hint Resolve tame_info_fields : tame.

Lemma tame_test_connection : tame (test_connection self).
Proof. unfold test_connection. tame_tac. Qed.

Lemma tame_get_collections : tame (get_collections self).
Proof. unfold get_collections. tame_tac. Qed.
Hint Resolve tame_test_connection tame_get_collections : tame.

Lemma tame_display_collections cols : tame (display_collections cols).
Proof. unfold display_collections. tame_tac. Qed.
Hint Resolve tame_display_collections : tame.

Lemma consumes_name_iteration : consumes (name_iteration self).
Proof. unfold name_iteration. tame_tac. Qed.

Lemma consumes_size_iteration : consumes size_iteration.
Proof. unfold size_iteration. tame_tac. Qed.

Lemma consumes_name_prompt : consumes (name_prompt self).
Proof. unfold name_prompt. tame_tac. apply consumes_name_iteration. Qed.

Lemma consumes_size_prompt : consumes size_prompt.
Proof. unfold size_prompt. tame_tac. apply consumes_size_iteration. Qed.

Lemma consumes_distance_prompt : consumes distance_prompt.
Proof. unfold distance_prompt. tame_tac. Qed.

Lemma tame_name_prompt : tame (name_prompt self).
Proof. apply consumes_tame, consumes_name_prompt. Qed.

Lemma tame_size_prompt : tame size_prompt.
Proof. apply consumes_tame, consumes_size_prompt. Qed.

Lemma tame_distance_prompt : tame distance_prompt.
Proof. apply consumes_tame, consumes_distance_prompt. Qed.
Hint Resolve tame_name_prompt tame_size_prompt tame_distance_prompt : tame.

Lemma tame_get_collection_config : tame (get_collection_config self).
Proof. unfold get_collection_config. tame_tac. Qed.

Lemma tame_create_collection nm config : tame (create_collection self nm config).
Proof. unfold create_collection. tame_tac. Qed.

Lemma tame_get_collection_info nm : tame (get_collection_info self nm).
Proof. unfold get_collection_info. tame_tac. Qed.
Hint Resolve tame_get_collection_config tame_create_collection
  tame_get_collection_info : tame.

Lemma tame_select_number cols tok sel : tame (select_number cols tok sel).
Proof. unfold select_number. tame_tac. Qed.
Hint Resolve tame_select_number : tame.

Lemma consumes_selection_iteration cols action :
  consumes (selection_iteration cols action).
Proof. unfold selection_iteration. tame_tac. Qed.

Lemma tame_get_user_selection cols action : tame (get_user_selection cols action).
Proof.
  unfold get_user_selection. tame_tac. apply consumes_selection_iteration.
Qed.

Lemma tame_confirm_deletion names : tame (confirm_deletion names).
Proof. unfold confirm_deletion. tame_tac. Qed.

Lemma tame_delete_collection nm : tame (delete_collection self nm).
Proof. unfold delete_collection. tame_tac. Qed.
Hint Resolve tame_get_user_selection tame_confirm_deletion
  tame_delete_collection : tame.

Lemma tame_delete_item nm lists : tame (delete_item self nm lists).
Proof. unfold delete_item. tame_tac. Qed.
Hint Resolve tame_delete_item : tame.

Lemma tame_delete_collections names : tame (delete_collections self names).
Proof. unfold delete_collections. tame_tac. Qed.

Lemma tame_display_results s f op : tame (display_results s f op).
Proof. unfold display_results. tame_tac. Qed.

Lemma tame_show_collection_details cols : tame (show_collection_details self cols).
Proof. unfold show_collection_details. tame_tac. Qed.

Lemma consumes_show_main_menu : consumes show_main_menu.
Proof. unfold show_main_menu. tame_tac. Qed.
Hint Resolve tame_delete_collections tame_display_results
  tame_show_collection_details : tame.

Lemma tame_list_branch fetched : tame (list_branch fetched).
Proof. unfold list_branch. tame_tac. Qed.

Lemma tame_create_branch : tame (create_branch self).
Proof. unfold create_branch. tame_tac. Qed.

Lemma tame_details_branch fetched : tame (details_branch self fetched).
Proof. unfold details_branch. tame_tac. Qed.

Lemma tame_delete_branch fetched : tame (delete_branch self fetched).
Proof. unfold delete_branch. tame_tac. Qed.
Hint Resolve tame_list_branch tame_create_branch tame_details_branch
  tame_delete_branch : tame.

Lemma tame_menu_action choice cols : tame (menu_action self choice cols).
Proof. unfold menu_action. tame_tac. Qed.
Hint Resolve tame_menu_action : tame.

Lemma consumes_menu_iteration cols : consumes (menu_iteration self cols).
Proof.
  unfold menu_iteration.
  apply consumes_bind; [apply consumes_show_main_menu | intros; tame_tac].
Qed.

Lemma consumes_menu_loop : consumes (menu_loop self).
Proof.
  unfold menu_loop. apply consumes_while_true. intro l.
  apply consumes_menu_iteration.
Qed.

Lemma tame_menu_loop : tame (menu_loop self).
Proof. apply consumes_tame, consumes_menu_loop. Qed.

End Termination.

#[local] Hint Resolve tame_json_of tame_collections_of tame_int_or_raise
  tame_info_fields tame_test_connection tame_get_collections
  tame_display_collections tame_name_prompt tame_size_prompt
  tame_distance_prompt tame_get_collection_config tame_create_collection
  tame_get_collection_info tame_select_number tame_get_user_selection
  tame_confirm_deletion tame_delete_collection tame_delete_item
  tame_delete_collections tame_display_results tame_show_collection_details
  tame_list_branch tame_create_branch tame_details_branch tame_delete_branch
  tame_menu_action tame_menu_loop : tame.

(** ** Strings *)

Lemma split_comma_not_nil (s : string) : PyStr.split_comma s <> [].
Proof.
  induction s as [|c r IH]; simpl; [discriminate |].
  destruct (Ascii.eqb c ","); [discriminate |].
  destruct (PyStr.split_comma r); discriminate.
Qed.

Lemma mem_In (x : string) (l : list string) : PyStr.mem x l = true <-> In x l.
Proof.
  unfold PyStr.mem. rewrite existsb_exists. split.
  - intros (y & Hy & E). apply String.eqb_eq in E. now subst.
  - intro H. exists x. split; [assumption | apply String.eqb_refl].
Qed.

Lemma unlower_lower_char (c : ascii) : In c (unlower (PyStr.lower_char c)).
Proof.
  destruct c as [[] [] [] [] [] [] [] []]; vm_compute; auto.
Qed.

Lemma case_variants_lower (s : string) : In s (case_variants (PyStr.lower s)).
Proof.
  induction s as [|c r IH]; simpl; [now left |].
  apply in_flat_map. exists r. split; [assumption |].
  apply (in_map (fun c' => String c' r)), unlower_lower_char.
Qed.

Lemma mem_app_keywords (x : string) (l1 l2 : list string) :
  PyStr.mem x (l1 ++ l2) = PyStr.mem x l1 || PyStr.mem x l2.
Proof. unfold PyStr.mem. apply existsb_app. Qed.

(** None of the keywords of the selection prompt, however it is cased,
    reads as a list of numbers. *)
Lemma keywords_not_numeric (selection : string) :
  PyStr.mem (PyStr.lower selection) ["q"; "quit"; "exit"]
  || PyStr.mem (PyStr.lower selection) ["all"; "*"; "todas"] = true ->
  numeric_fields selection = false.
Proof.
  intro H. rewrite <- mem_app_keywords in H. apply mem_In in H. simpl app in H.
  assert (Hall : forallb (fun t => negb (numeric_fields t))
            (flat_map case_variants ["q"; "quit"; "exit"; "all"; "*"; "todas"]) = true)
    by (vm_compute; reflexivity).
  rewrite forallb_forall in Hall.
  apply negb_true_iff, Hall, in_flat_map.
  exists (PyStr.lower selection). split; [assumption | apply case_variants_lower].
Qed.

(** The string built-ins stay folded under [simpl]; closed terms are
    evaluated with [reflexivity] or [vm_compute]. *)
#[local] Arguments PyStr.mem : simpl never.
#[local] Arguments PyStr.strip : simpl never.
#[local] Arguments PyStr.lower : simpl never.
#[local] Arguments PyStr.split_comma : simpl never.
#[local] Arguments PyStr.int : simpl never.
#[local] Arguments String.eqb : simpl never.
#[local] Arguments String.append : simpl never.

(** ** Removing duplicates *)

Lemma filter_filter {A} (p q : A -> bool) (l : list A) :
  filter p (filter q l) = filter (fun x => q x && p x) l.
Proof.
  induction l as [|x l IH]; simpl; [reflexivity |].
  destruct (q x); simpl; [destruct (p x) |]; now rewrite IH.
Qed.

Lemma first_occurrences_filter (p : string -> bool) (l : list string) :
  first_occurrences (filter p l) = filter p (first_occurrences l).
Proof.
  induction l as [|x l IH]; simpl; [reflexivity |].
  destruct (p x) eqn:Px; simpl.
  - rewrite IH, !filter_filter. f_equal.
    apply filter_ext. intro y. apply andb_comm.
  - rewrite IH, filter_filter. apply filter_ext_in. intros y _.
    destruct (String.eqb_spec y x) as [-> | _]; simpl; [now rewrite Px | reflexivity].
Qed.

(** The accumulation of the selection loop removes duplicates and keeps
    the order of first occurrence. *)
Lemma fold_pick (names selected : list string) :
  fold_left pick names selected =
  selected ++ first_occurrences (filter (fun y => negb (PyStr.mem y selected)) names).
Proof.
  revert selected. induction names as [|x names IH]; intro selected; simpl.
  - now rewrite app_nil_r.
  - rewrite IH. unfold pick. destruct (PyStr.mem x selected) eqn:Hx; simpl.
    + reflexivity.
    + rewrite <- app_assoc. simpl. do 2 f_equal.
      rewrite <- first_occurrences_filter, filter_filter. f_equal.
      apply filter_ext. intro y.
      rewrite mem_app_keywords, negb_orb. f_equal.
      unfold PyStr.mem. simpl. now rewrite orb_false_r.
Qed.

Lemma fold_pick_nil (names : list string) :
  fold_left pick names [] = first_occurrences names.
Proof.
  rewrite fold_pick. simpl. f_equal.
  induction names as [|x names IH]; simpl; [reflexivity | now rewrite IH].
Qed.

(** ** The selection parser *)

Section Selection.

Variable collections : list collection.

Lemma select_number_valid (token : string) (selected : list string) (w : world) :
  valid_index collections token = true ->
  select_number collections token selected w =
  (Ret (Continue (pick selected (index_name collections token))), w).
Proof.
  unfold valid_index, index_name, select_number, int_or_raise, try_except, bind.
  destruct (PyStr.int token) as [num|]; [| discriminate].
  intro H. simpl. rewrite H.
  destruct (nth_error collections (Z.to_nat (num - 1))) as [col|] eqn:E.
  - unfold pick. destruct (PyStr.mem (name col) selected); reflexivity.
  - apply nth_error_None in E. lia.
Qed.

Lemma select_number_invalid (token : string) (selected : list string) (w : world) :
  valid_index collections token = false ->
  exists note,
    select_number collections token selected w =
    (Ret (Break None), record (Printed note) w).
Proof.
  unfold valid_index, select_number, int_or_raise, try_except, bind.
  destruct (PyStr.int token) as [num|]; intro H; simpl.
  - rewrite H. eexists. reflexivity.
  - eexists. reflexivity.
Qed.

Lemma select_all_valid (fields selected : list string) (w : world) :
  forallb (valid_index collections) fields = true ->
  for_each_until fields (select_number collections) selected w =
  (Ret (Continue (fold_left pick (map (index_name collections) fields) selected)), w).
Proof.
  revert selected. induction fields as [|token fields IH]; intros selected H; simpl in *.
  - reflexivity.
  - apply andb_true_iff in H. destruct H as [Ht Hrest].
    unfold bind. rewrite (select_number_valid _ _ _ Ht). apply IH, Hrest.
Qed.

Lemma select_some_invalid (fields selected : list string) (w : world) :
  forallb (valid_index collections) fields = false ->
  exists note,
    for_each_until fields (select_number collections) selected w =
    (Ret (Break None), record (Printed note) w).
Proof.
  revert selected. induction fields as [|token fields IH]; intros selected H; simpl in *.
  - discriminate.
  - unfold bind. destruct (valid_index collections token) eqn:Ht; simpl in H.
    + rewrite (select_number_valid _ _ _ Ht). apply IH, H.
    + destruct (select_number_invalid token selected w Ht) as [note ->].
      exists note. reflexivity.
Qed.

Lemma valid_fields_numeric (line : string) :
  forallb (valid_index collections) (tokens line) = true ->
  numeric_fields (PyStr.strip line) = true.
Proof.
  unfold numeric_fields, tokens. rewrite !forallb_forall. intros H token Hin.
  specialize (H token Hin). unfold valid_index in H.
  destruct (PyStr.int token); [reflexivity | discriminate].
Qed.

End Selection.

Lemma blank_not_numeric : numeric_fields "" = false.
Proof. reflexivity. Qed.

(** C2. For every selection line whose comma-separated fields are all
    valid 1-based indices into the displayed listing, the parser returns,
    having read that one line, exactly the names those indices map to, with
    duplicates removed and the order of first occurrence preserved. *)
Theorem selection_of_valid_indices
  (collections : list collection) (action line : string)
  (rest : list console_event) (sv : list http_reply) (tr : list event) :
  forallb (valid_index collections) (tokens line) = true ->
  get_user_selection collections action
    {| stdin := Line line :: rest; service := sv; trace := tr |} =
  (Ret (Some (first_occurrences (map (index_name collections) (tokens line)))),
   {| stdin := rest; service := sv;
      trace := tr ++ [Printed (SelectionHelp action); Prompted (AskSelection action)] |}).
Proof.
  intro Hvalid.
  pose proof (valid_fields_numeric collections line Hvalid) as Hnum.
  assert (Hblank : String.eqb (PyStr.strip line) "" = false).
  { destruct (String.eqb_spec (PyStr.strip line) "") as [E | _]; [| reflexivity].
    rewrite E, blank_not_numeric in Hnum. discriminate. }
  assert (Hkey : PyStr.mem (PyStr.lower (PyStr.strip line)) ["q"; "quit"; "exit"]
                 || PyStr.mem (PyStr.lower (PyStr.strip line)) ["all"; "*"; "todas"]
                 = false).
  { destruct (_ || _) eqn:E; [| reflexivity].
    rewrite (keywords_not_numeric _ E) in Hnum. discriminate. }
  apply orb_false_iff in Hkey. destruct Hkey as [Hquit Hall].
  unfold get_user_selection, while_true, bind at 1. simpl.
  unfold bind at 1. unfold selection_iteration, try_except, bind at 1. simpl.
  rewrite Hblank, Hquit, Hall, andb_false_r.
  unfold bind at 1. fold (tokens line).
  rewrite (select_all_valid collections _ _ _ Hvalid), fold_pick_nil.
  destruct (tokens line) as [|token fields] eqn:Et.
  - exfalso. unfold tokens in Et. apply map_eq_nil in Et.
    exact (split_comma_not_nil _ Et).
  - simpl. rewrite <- app_assoc. reflexivity.
Qed.

(** C3, as stated, fails on the delete-only keyword: the single field
    [all] is not a number, and in delete mode the parser answers with every
    name of the listing. *)
Lemma selection_all_keyword_counterexample :
  In "all" (tokens "all") /\
  valid_index [entry "docs"; entry "notes"] "all" = false /\
  get_user_selection [entry "docs"; entry "notes"] "borrar"
    {| stdin := [Line "all"]; service := []; trace := [] |} =
  (Ret (Some ["docs"; "notes"]),
   {| stdin := []; service := [];
      trace := [Printed (SelectionHelp "borrar"); Prompted (AskSelection "borrar")] |}).
Proof. split; [left; reflexivity | split; reflexivity]. Qed.

(** C3, amended. For every selection line (of ASCII text, where the
    blanks, letters and digits of the model are Python's) that is not blank
    and is not, in delete mode, one of the keywords [all], [*], [todas]: if
    one of its fields is not a number or is an index outside
    [1..len(listing)], the parser rejects the whole line, returning no names
    after reading that one line, whatever the other fields are. *)
Theorem selection_with_bad_field_rejected
  (collections : list collection) (action line token : string)
  (rest : list console_event) (sv : list http_reply) (tr : list event) :
  PyStr.isascii line = true ->
  PyStr.strip line <> "" ->
  ~ (action = "borrar" /\ In (PyStr.lower (PyStr.strip line)) ["all"; "*"; "todas"]) ->
  In token (tokens line) ->
  valid_index collections token = false ->
  exists notes,
    get_user_selection collections action
      {| stdin := Line line :: rest; service := sv; trace := tr |} =
    (Ret None,
     {| stdin := rest; service := sv;
        trace := tr ++ [Printed (SelectionHelp action); Prompted (AskSelection action)]
                    ++ map Printed notes |}).
Proof.
  intros _ Hblank Hall Hin Hbad.
  apply String.eqb_neq in Hblank.
  assert (Hkey : String.eqb action "borrar"
                 && PyStr.mem (PyStr.lower (PyStr.strip line)) ["all"; "*"; "todas"]
                 = false).
  { destruct (_ && _) eqn:E; [| reflexivity]. exfalso. apply Hall.
    apply andb_true_iff in E. destruct E as [E1 E2].
    split; [apply String.eqb_eq, E1 | apply mem_In, E2]. }
  assert (Hinvalid : forallb (valid_index collections) (tokens line) = false).
  { destruct (forallb _ _) eqn:E; [| reflexivity].
    rewrite forallb_forall in E. rewrite (E token Hin) in Hbad. discriminate. }
  unfold get_user_selection, while_true, bind at 1. simpl.
  unfold bind at 1. unfold selection_iteration, try_except, bind at 1. simpl.
  rewrite Hblank.
  destruct (PyStr.mem (PyStr.lower (PyStr.strip line)) ["q"; "quit"; "exit"]).
  - exists []. simpl. rewrite <- app_assoc. reflexivity.
  - rewrite Hkey. unfold bind at 1. fold (tokens line).
    match goal with
    | |- context [for_each_until (tokens line) _ [] ?w] =>
        destruct (select_some_invalid collections (tokens line) [] w Hinvalid)
          as [note ->]
    end.
    exists [note]. simpl. unfold record. simpl. rewrite <- !app_assoc. reflexivity.
Qed.

(** A line with one good and one unreadable field is rejected whole. *)
Lemma selection_with_bad_field_rejected_witness :
  exists notes,
    get_user_selection [entry "docs"; entry "notes"] "ver detalles"
      {| stdin := [Line "1, x"]; service := []; trace := [] |} =
    (Ret None,
     {| stdin := []; service := [];
        trace := [] ++ [Printed (SelectionHelp "ver detalles");
                        Prompted (AskSelection "ver detalles")]
                    ++ map Printed notes |}).
Proof.
  apply (selection_with_bad_field_rejected
           [entry "docs"; entry "notes"] "ver detalles" "1, x" "x").
  - reflexivity.
  - discriminate.
  - intros [E _]. discriminate E.
  - right. left. reflexivity.
  - reflexivity.
Defined.

(** The second and third names of a listing of three, picked as [3, 1,3 ,2]. *)
Lemma selection_of_valid_indices_witness :
  get_user_selection [entry "a"; entry "b"; entry "c"] "borrar"
    {| stdin := [Line " 3, 1,3 ,2"]; service := []; trace := [] |} =
  (Ret (Some ["c"; "a"; "b"]),
   {| stdin := []; service := [];
      trace := [Printed (SelectionHelp "borrar"); Prompted (AskSelection "borrar")] |}).
Proof.
  exact (selection_of_valid_indices [entry "a"; entry "b"; entry "c"]
           "borrar" " 3, 1,3 ,2" [] [] [] eq_refl).
Defined.

(** ** Batch delete *)

Section Delete.

Variable self : manager.

Lemma requests_of_app (evs evs' : list event) :
  requests_of (evs ++ evs') = requests_of evs ++ requests_of evs'.
Proof. unfold requests_of. apply flat_map_app. Qed.

Lemma requests_of_prints (notes : list message) :
  requests_of (map Printed notes) = [].
Proof. induction notes as [|m notes IH]; simpl; [reflexivity | exact IH]. Qed.

(** One delete call: one request, one reply consumed, a boolean. *)
Lemma delete_collection_run (collection_name : string)
  (inp : list console_event) (sv : list http_reply) (tr : list event) :
  exists notes,
    delete_collection self collection_name
      {| stdin := inp; service := sv; trace := tr |} =
    (Ret (accepts_delete (reply_at sv 0)),
     {| stdin := inp; service := tl sv;
        trace := tr ++ Requested (delete_request self collection_name)
                       :: map Printed notes |}).
Proof.
  unfold delete_collection, try_except, bind, send. simpl.
  destruct sv as [|[kind|code [data|]] sv']; simpl.
  - eexists [_]. unfold record. simpl. rewrite <- app_assoc. reflexivity.
  - eexists [_]. unfold record. simpl. rewrite <- app_assoc. reflexivity.
  - destruct (code =? 200)%Z; simpl.
    + destruct (result_is_true data); simpl.
      * exists []. reflexivity.
      * eexists [_]. unfold record. simpl. rewrite <- app_assoc. reflexivity.
    + eexists [_]. unfold record. simpl. rewrite <- app_assoc. reflexivity.
  - destruct (code =? 200)%Z; simpl;
      eexists [_]; unfold record; simpl; rewrite <- app_assoc; reflexivity.
Qed.

Lemma reply_at_tail (sv : list http_reply) (i : nat) :
  reply_at (tl sv) i = reply_at sv (S i).
Proof. destruct sv as [|r sv]; [destruct i |]; reflexivity. Qed.

Lemma outcomes_tail (sv : list http_reply) (n : nat) :
  map (fun i => accepts_delete (reply_at (tl sv) i)) (seq 0 n) =
  map (fun i => accepts_delete (reply_at sv i)) (seq 1 n).
Proof.
  rewrite <- seq_shift, map_map. apply map_ext. intro i.
  now rewrite reply_at_tail.
Qed.

Lemma delete_item_run (collection_name : string) (successful failed : list string)
  (inp : list console_event) (sv : list http_reply) (tr : list event) :
  exists evs,
    delete_item self collection_name (successful, failed)
      {| stdin := inp; service := sv; trace := tr |} =
    (Ret (if accepts_delete (reply_at sv 0)
          then (successful ++ [collection_name], failed)
          else (successful, failed ++ [collection_name])),
     {| stdin := inp; service := tl sv; trace := tr ++ evs |}) /\
    requests_of evs = [delete_request self collection_name].
Proof.
  unfold delete_item, bind, print, sleep, emit, record. simpl.
  destruct (delete_collection_run collection_name inp sv
              (tr ++ [Printed (Deleting collection_name)])) as [notes ->].
  destruct (accepts_delete (reply_at sv 0)); simpl;
    (eexists; split; [rewrite <- !app_assoc; simpl; reflexivity |]);
    simpl; f_equal; rewrite requests_of_app, requests_of_prints; reflexivity.
Qed.

(** The loop of [delete_collections], from any lists gathered so far. *)
Lemma delete_loop_run (names successful failed : list string)
  (inp : list console_event) (sv : list http_reply) (tr : list event) :
  let outcomes :=
    map (fun i => accepts_delete (reply_at sv i)) (seq 0 (length names)) in
  exists evs,
    for_each names (delete_item self) (successful, failed)
      {| stdin := inp; service := sv; trace := tr |} =
    (Ret (successful ++ fst (partition_by names outcomes),
          failed ++ snd (partition_by names outcomes)),
     {| stdin := inp; service := skipn (length names) sv; trace := tr ++ evs |}) /\
    requests_of evs = map (delete_request self) names.
Proof.
  revert successful failed sv tr.
  induction names as [|nm names IH]; intros successful failed sv tr.
  - simpl. exists []. rewrite !app_nil_r. split; reflexivity.
  - cbv zeta in *. cbn [for_each length seq map partition_by].
    unfold bind at 1.
    destruct (delete_item_run nm successful failed inp sv tr) as (evs1 & -> & Hreq1).
    rewrite <- seq_shift, map_map.
    assert (Hskip : skipn (length names) (tl sv) =
                    match sv with [] => [] | _ :: l => skipn (length names) l end)
      by (destruct sv; [apply skipn_nil | reflexivity]).
    destruct (accepts_delete (reply_at sv 0)) eqn:Eok.
    + destruct (IH (successful ++ [nm]) failed (tl sv) (tr ++ evs1))
        as (evs & -> & Hreq).
      rewrite outcomes_tail, <- seq_shift, map_map, Hskip.
      destruct (partition_by names _) as [succeeded rejected]. simpl.
      exists (evs1 ++ evs). rewrite <- !app_assoc. split; [reflexivity |].
      rewrite requests_of_app, Hreq1, Hreq. reflexivity.
    + destruct (IH successful (failed ++ [nm]) (tl sv) (tr ++ evs1))
        as (evs & -> & Hreq).
      rewrite outcomes_tail, <- seq_shift, map_map, Hskip.
      destruct (partition_by names _) as [succeeded rejected]. simpl.
      exists (evs1 ++ evs). rewrite <- !app_assoc. split; [reflexivity |].
      rewrite requests_of_app, Hreq1, Hreq. reflexivity.
Qed.

End Delete.

Lemma partition_by_length (names : list string) (outcomes : list bool) :
  length outcomes = length names ->
  length (fst (partition_by names outcomes)) +
  length (snd (partition_by names outcomes)) = length names.
Proof.
  revert outcomes. induction names as [|nm names IH]; intros [|ok outcomes] H;
    simpl in *; try discriminate; [reflexivity |].
  injection H as H. specialize (IH outcomes H).
  destruct (partition_by names outcomes) as [succeeded failed].
  destruct ok; simpl in *; lia.
Qed.

Lemma partition_by_permutation (names : list string) (outcomes : list bool) :
  length outcomes = length names ->
  Permutation
    (fst (partition_by names outcomes) ++ snd (partition_by names outcomes)) names.
Proof.
  revert outcomes. induction names as [|nm names IH]; intros [|ok outcomes] H;
    simpl in *; try discriminate; [constructor |].
  injection H as H. specialize (IH outcomes H).
  destruct (partition_by names outcomes) as [succeeded failed].
  destruct ok; simpl in *.
  - now constructor.
  - apply Permutation_sym, Permutation_cons_app, Permutation_sym, IH.
Qed.

(** The first [k] calls succeed and the others fail: the partition cuts the
    batch after its first [k] names. *)
Lemma partition_by_prefix (names : list string) (ok : nat -> bool) (k : nat) :
  k <= length names ->
  (forall i, i < k -> ok i = true) ->
  (forall i, k <= i < length names -> ok i = false) ->
  partition_by names (map ok (seq 0 (length names))) =
  (firstn k names, skipn k names).
Proof.
  revert ok k. induction names as [|nm names IH]; intros ok k Hk Hyes Hno.
  - simpl in Hk. replace k with 0 by lia. reflexivity.
  - cbn [length seq map partition_by]. rewrite <- seq_shift, map_map.
    destruct k as [|k].
    + rewrite (IH (fun i => ok (S i)) 0); [| lia | intros; lia |].
      * rewrite (Hno 0) by (simpl; lia). reflexivity.
      * intros i Hi. apply Hno. simpl. lia.
    + rewrite (IH (fun i => ok (S i)) k); [| simpl in Hk; lia | |].
      * rewrite (Hyes 0) by lia. reflexivity.
      * intros i Hi. apply Hyes. lia.
      * intros i Hi. apply Hno. simpl. lia.
Qed.

(** C1. A delete call returns whether the service's reply to it is an
    acceptance.  For every batch of N names, [delete_collections] returns
    and puts each name in exactly one of the succeeded and failed lists,
    according to what its own delete call returned; the two sizes add up to
    N; a delete request goes out for every name of the batch, in order,
    whatever the earlier ones gave; and when the service accepts the first K
    deletes and rejects the rest, the lists are the first K names and the
    other N-K. *)
Theorem delete_collections_partition
  (self : manager) (names : list string) (w : world) :
  let outcomes :=
    map (fun i => accepts_delete (reply_at (service w) i)) (seq 0 (length names)) in
  let succeeded := fst (partition_by names outcomes) in
  let failed := snd (partition_by names outcomes) in
  (forall nm inp sv tr,
      fst (delete_collection self nm {| stdin := inp; service := sv; trace := tr |})
      = Ret (accepts_delete (reply_at sv 0))) /\
  exists w',
    delete_collections self names w = (Ret (succeeded, failed), w') /\
    length succeeded + length failed = length names /\
    Permutation (succeeded ++ failed) names /\
    requests_of (trace w') =
      requests_of (trace w) ++ map (delete_request self) names /\
    (forall k,
        k <= length names ->
        (forall i, i < k -> accepts_delete (reply_at (service w) i) = true) ->
        (forall i, k <= i < length names ->
                   accepts_delete (reply_at (service w) i) = false) ->
        succeeded = firstn k names /\ failed = skipn k names /\
        length succeeded = k /\ length failed = length names - k).
Proof.
  intros outcomes succeeded failed.
  assert (Hlen : length outcomes = length names)
    by (unfold outcomes; now rewrite length_map, length_seq).
  split.
  { intros nm inp sv tr.
    destruct (delete_collection_run self nm inp sv tr) as [notes ->]. reflexivity. }
  destruct w as [inp sv tr].
  destruct (delete_loop_run self names [] [] inp sv (tr ++ [Printed DeleteStart]))
    as (evs & Hrun & Hreq).
  eexists. split; [| split; [| split; [| split]]].
  - unfold delete_collections, bind, print, emit, record. simpl. exact Hrun.
  - apply partition_by_length, Hlen.
  - apply partition_by_permutation, Hlen.
  - simpl. rewrite !requests_of_app, Hreq. simpl. now rewrite app_nil_r.
  - intros k Hk Hyes Hno.
    pose proof (partition_by_prefix names
                  (fun i => accepts_delete (reply_at sv i)) k Hk Hyes Hno) as E.
    unfold succeeded, failed, outcomes. simpl service. rewrite E. simpl.
    rewrite length_firstn, length_skipn. repeat split; lia.
Qed.

(** Three names, the service accepts two deletes and refuses the third. *)
Lemma delete_collections_partition_witness :
  fst (delete_collections sample_manager ["a"; "b"; "c"]
         {| stdin := []; trace := [];
            service := [accepted_reply; accepted_reply; Response 404 None] |})
  = Ret (["a"; "b"], ["c"]).
Proof.
  destruct (delete_collections_partition sample_manager ["a"; "b"; "c"]
              {| stdin := []; trace := [];
                 service := [accepted_reply; accepted_reply; Response 404 None] |})
    as (_ & w' & Hrun & _ & _ & _ & Hcut).
  destruct (Hcut 2) as (Hs & Hf & _).
  - simpl. lia.
  - intros [|[|i]] Hi; [reflexivity | reflexivity | lia].
  - intros [|[|[|i]]] Hi; simpl in Hi; try lia. reflexivity.
  - rewrite Hrun. cbn [fst]. cbv zeta in Hs, Hf. rewrite Hs, Hf. reflexivity.
Defined.

(** ** The remote calls, one request each *)

Section Calls.

Variable self : manager.

Ltac one_request :=
  unfold record; simpl; rewrite <- ?app_assoc; simpl;
  first [ exists []; reflexivity | eexists [_]; reflexivity
        | eexists [_; _]; reflexivity ].

(** [get_collections] always returns: a listing or [None], after exactly one
    list request and at most a message of its own. *)
Lemma get_collections_run
  (inp : list console_event) (sv : list http_reply) (tr : list event) :
  exists fetched notes,
    get_collections self {| stdin := inp; service := sv; trace := tr |} =
    (Ret fetched,
     {| stdin := inp; service := tl sv;
        trace := tr ++ Requested (list_request self) :: map Printed notes |}) /\
    forallb list_note notes = true.
Proof.
  unfold get_collections, try_except, bind, send, json_of, collections_of. simpl.
  assert (Hsplit : forall fetched (m : message) (w : world),
             w = {| stdin := inp; service := tl sv;
                    trace := tr ++ Requested (list_request self) :: map Printed [m] |} ->
             list_note m = true ->
             exists fetched' notes,
               (Ret fetched, w) =
               (@Ret (option (list collection)) fetched',
                {| stdin := inp; service := tl sv;
                   trace := tr ++ Requested (list_request self) :: map Printed notes |}) /\
               forallb list_note notes = true).
  { intros fetched m w -> Hm. exists fetched, [m]. simpl. now rewrite Hm. }
  assert (Hquiet : forall fetched (w : world),
             w = {| stdin := inp; service := tl sv;
                    trace := tr ++ Requested (list_request self) :: map Printed [] |} ->
             exists fetched' notes,
               (Ret fetched, w) =
               (@Ret (option (list collection)) fetched',
                {| stdin := inp; service := tl sv;
                   trace := tr ++ Requested (list_request self) :: map Printed notes |}) /\
               forallb list_note notes = true).
  { intros fetched w ->. exists fetched, []. split; reflexivity. }
  destruct sv as [|[kind|code [[st res]|]] sv']; simpl.
  - eapply Hsplit; [unfold record; simpl; rewrite <- app_assoc |]; reflexivity.
  - eapply Hsplit; [unfold record; simpl; rewrite <- app_assoc |]; reflexivity.
  - destruct (code =? 200)%Z; simpl;
      [| eapply Hsplit; [unfold record; simpl; rewrite <- app_assoc |]; reflexivity].
    unfold status_ok. simpl.
    destruct st as [st|]; [destruct (String.eqb st "ok") |]; simpl;
      try (eapply Hsplit; [unfold record; simpl; rewrite <- app_assoc |]; reflexivity).
    destruct res as [[]|]; simpl;
      first [ apply Hquiet; reflexivity
            | eapply Hsplit; [unfold record; simpl; rewrite <- app_assoc |]; reflexivity ].
  - destruct (code =? 200)%Z; simpl;
      (eapply Hsplit; [unfold record; simpl; rewrite <- app_assoc |]; reflexivity).
Qed.

Lemma get_collections_listing (listing : list collection)
  (inp : list console_event) (sv : list http_reply) (tr : list event) :
  get_collections self
    {| stdin := inp; service := listing_reply listing :: sv; trace := tr |} =
  (Ret (Some listing),
   {| stdin := inp; service := sv; trace := tr ++ [Requested (list_request self)] |}).
Proof. reflexivity. Qed.

(** What [get_collections] returns, from the reply alone. *)
Lemma get_collections_reply
  (inp : list console_event) (sv : list http_reply) (tr : list event) :
  exists notes,
    get_collections self {| stdin := inp; service := sv; trace := tr |} =
    (Ret (listing_of (reply_at sv 0)),
     {| stdin := inp; service := tl sv;
        trace := tr ++ Requested (list_request self) :: map Printed notes |}) /\
    length notes = if faulty (reply_at sv 0) then 1 else 0.
Proof.
  unfold get_collections, try_except, send, json_of, collections_of.
  rewrite bind_run. simpl.
  assert (Hnote : forall m : message,
             exists notes,
               (@Ret (option (list collection)) None,
                {| stdin := inp; service := tl sv;
                   trace := (tr ++ [Requested (list_request self)]) ++ [Printed m] |}) =
               (Ret None,
                {| stdin := inp; service := tl sv;
                   trace := tr ++ Requested (list_request self) :: map Printed notes |}) /\
               length notes = 1).
  { intro m. exists [m]. simpl. rewrite <- app_assoc. split; reflexivity. }
  destruct sv as [|[kind|code [[st res]|]] sv']; simpl.
  - apply Hnote.
  - apply Hnote.
  - destruct (code =? 200)%Z; simpl; [| apply Hnote].
    unfold status_ok. simpl. rewrite bind_run. simpl.
    destruct st as [st|]; [destruct (String.eqb st "ok") |]; simpl;
      try apply Hnote.
    destruct res as [[]|]; simpl; try apply Hnote;
      exists []; split; reflexivity.
  - destruct (code =? 200)%Z; simpl; apply Hnote.
Qed.

(** [create_collection] always returns, after exactly one create request. *)
Lemma create_collection_run (collection_name : string) (config : vectors_config)
  (inp : list console_event) (sv : list http_reply) (tr : list event) :
  exists created notes,
    create_collection self collection_name config
      {| stdin := inp; service := sv; trace := tr |} =
    (Ret created,
     {| stdin := inp; service := tl sv;
        trace := tr ++ Printed (Creating collection_name)
                    :: Requested (create_request self collection_name config)
                    :: map Printed notes |}).
Proof.
  unfold create_collection, try_except, bind, send, json_of, print, emit. simpl.
  destruct sv as [|[kind|code [data|]] sv']; simpl.
  - eexists. one_request.
  - eexists. one_request.
  - destruct ((code =? 200)%Z || (code =? 201)%Z); simpl; [| eexists; one_request].
    destruct (result_is_true data); simpl; eexists; one_request.
  - destruct ((code =? 200)%Z || (code =? 201)%Z); simpl; eexists; one_request.
Qed.

(** [test_connection] always returns: whether the first reply is a 200. *)
Lemma test_connection_run
  (inp : list console_event) (sv : list http_reply) (tr : list event) :
  exists notes,
    test_connection self {| stdin := inp; service := sv; trace := tr |} =
    (Ret (negb (unreachable sv)),
     {| stdin := inp; service := tl sv;
        trace := tr ++ Printed Probing :: Requested (ping_request self)
                    :: map Printed notes |}).
Proof.
  unfold test_connection, try_except, bind, send, print, emit. simpl.
  destruct sv as [|[kind|code data] sv']; simpl.
  - one_request.
  - destruct kind; one_request.
  - destruct (code =? 200)%Z; simpl; one_request.
Qed.

End Calls.

(** ** The create flow *)

Section Create.

Variable self : manager.

(** Whether a fetched listing makes the create flow refuse a name. *)
Lemma name_iteration_run (line : string)
  (rest : list console_event) (sv : list http_reply) (tr : list event) :
  let asked := {| stdin := rest; service := sv; trace := tr ++ [Prompted AskName] |} in
  name_iteration self {| stdin := Line line :: rest; service := sv; trace := tr |} =
  if String.eqb (PyStr.strip line) "" then
    (Ret (Continue tt), record (Printed NameEmpty) asked)
  else
    match get_collections self asked with
    | (Ret fetched, w') =>
        if match fetched with
           | Some (col :: cols) =>
               existsb (fun col => String.eqb (name col) (PyStr.strip line)) (col :: cols)
           | _ => false
           end
        then (Ret (Continue tt), record (Printed (NameExists (PyStr.strip line))) w')
        else (Ret (Break (PyStr.strip line)), w')
    | (Raise e, w') => (Raise e, w')
    | (OutOfFuel, w') => (OutOfFuel, w')
    end.
Proof.
  cbv zeta. unfold name_iteration, bind at 1. simpl.
  destruct (String.eqb (PyStr.strip line) ""); [reflexivity |].
  unfold bind at 1.
  destruct (get_collections self _) as [[fetched|e|] w']; try reflexivity.
  destruct (match fetched with Some (col :: cols) => _ | _ => false end);
    reflexivity.
Qed.

Lemma listed_name_found (entered : string) (listing : list collection) :
  In entered (map name listing) ->
  match listing with
  | col :: cols => existsb (fun col => String.eqb (name col) entered) (col :: cols)
  | [] => false
  end = true.
Proof.
  intro H. destruct listing as [|col cols]; [contradiction |].
  apply existsb_exists. apply in_map_iff in H. destruct H as (c & E & Hin).
  exists c. split; [assumption | now apply String.eqb_eq].
Qed.

(** C4. In the create flow, a name (a line of ASCII text, where the blanks
    of the model are Python's) that is blank, or that is the name of a
    collection of the listing fetched to validate it, is refused locally:
    the name prompt goes round again on the rest of the input, and the only
    request that went out, if any, is the list request, never a create. *)
Theorem create_name_rejected (line : string)
  (rest : list console_event) (sv : list http_reply) (tr : list event) :
  PyStr.isascii line = true ->
  let w := {| stdin := Line line :: rest; service := sv; trace := tr |} in
  let asked := {| stdin := rest; service := sv; trace := tr ++ [Prompted AskName] |} in
  (PyStr.strip line = "" ->
   name_prompt self w = name_prompt self (record (Printed NameEmpty) asked)) /\
  (forall listing w',
      PyStr.strip line <> "" ->
      get_collections self asked = (Ret (Some listing), w') ->
      In (PyStr.strip line) (map name listing) ->
      name_prompt self w =
        name_prompt self (record (Printed (NameExists (PyStr.strip line))) w') /\
      stdin w' = rest /\
      exists evs,
        trace w' = tr ++ evs /\
        requests_of evs = [list_request self] /\
        existsb is_create_request (requests_of evs) = false).
Proof.
  intros _. cbv zeta. split.
  - intro Hblank. unfold name_prompt at 1.
    rewrite while_true_unfold by (intro; apply consumes_name_iteration).
    rewrite name_iteration_run. cbv zeta.
    rewrite Hblank. reflexivity.
  - intros listing w' Hnonblank Hfetch Hin. split; [| split].
    + unfold name_prompt at 1.
      rewrite while_true_unfold by (intro; apply consumes_name_iteration).
      rewrite name_iteration_run. cbv zeta.
      apply String.eqb_neq in Hnonblank. rewrite Hnonblank, Hfetch.
      rewrite (listed_name_found _ _ Hin). reflexivity.
    + destruct (get_collections_run self rest sv (tr ++ [Prompted AskName]))
        as (fetched & notes & E & _).
      rewrite E in Hfetch. injection Hfetch as _ <-. reflexivity.
    + destruct (get_collections_run self rest sv (tr ++ [Prompted AskName]))
        as (fetched & notes & E & _).
      rewrite E in Hfetch. injection Hfetch as _ <-. simpl.
      exists (Prompted AskName :: Requested (list_request self) :: map Printed notes).
      rewrite <- app_assoc. simpl. rewrite requests_of_prints.
      repeat split; reflexivity.
Qed.

End Create.

(** The user enters [docs], which the service lists. *)
Lemma create_name_rejected_witness :
  name_prompt sample_manager
    {| stdin := [Line " docs "; Line "docs_v2"];
       service := [listing_reply [entry "docs"]]; trace := [] |} =
  name_prompt sample_manager
    {| stdin := [Line "docs_v2"]; service := [];
       trace := [Prompted AskName; Requested (list_request sample_manager);
                 Printed (NameExists "docs")] |}.
Proof.
  destruct (create_name_rejected sample_manager " docs " [Line "docs_v2"]
              [listing_reply [entry "docs"]] [] eq_refl) as [_ H].
  destruct (H [entry "docs"]
              {| stdin := [Line "docs_v2"]; service := [];
                 trace := [Prompted AskName; Requested (list_request sample_manager)] |})
    as (E & _).
  - discriminate.
  - reflexivity.
  - left. reflexivity.
  - exact E.
Defined.

Lemma int_some_not_blank (text : string) (n : Z) :
  PyStr.int text = Some n -> String.eqb text "" = false.
Proof.
  intro H. destruct (String.eqb_spec text "") as [-> | _]; [| reflexivity].
  discriminate H.
Qed.

(** C6. At the vector-size prompt: an empty answer gives the default 1536;
    an answer that reads as an integer at most 0 is refused and the prompt
    goes round again; an answer above 65536 is accepted only through one
    more prompt, whose answer (a line of ASCII text, where the letters and
    blanks of the model are Python's) decides between taking the size and
    going round again: a yes takes the size, anything else goes round. *)
Theorem vector_size_prompt (line : string)
  (rest : list console_event) (sv : list http_reply) (tr : list event) :
  let w := {| stdin := Line line :: rest; service := sv; trace := tr |} in
  let asked :=
    {| stdin := rest; service := sv; trace := tr ++ [Prompted AskVectorSize] |} in
  let confirming rest' :=
    {| stdin := rest'; service := sv;
       trace := tr ++ [Prompted AskVectorSize; Printed SizeVeryLarge;
                       Prompted AskLargeSize] |} in
  (PyStr.strip line = "" -> size_prompt w = (Ret 1536%Z, asked)) /\
  (forall n,
      PyStr.int (PyStr.strip line) = Some n -> (n <= 0)%Z ->
      size_prompt w = size_prompt (record (Printed SizeNotPositive) asked)) /\
  (forall n,
      PyStr.int (PyStr.strip line) = Some n -> (65536 < n)%Z ->
      (forall answer rest', rest = Line answer :: rest' ->
                            PyStr.isascii answer = true) ->
      size_prompt w =
      match rest with
      | Line answer :: rest' =>
          if answered_yes answer then (Ret n, confirming rest')
          else size_prompt (confirming rest')
      | CtrlC :: rest' => (Raise KeyboardInterrupt, confirming rest')
      | Eof :: rest' => (Raise (Error EOFError), confirming rest')
      | [] => (Raise (Error EOFError), confirming [])
      end) /\
  (forall n answer rest',
      PyStr.int (PyStr.strip line) = Some n -> (65536 < n)%Z ->
      rest = Line answer :: rest' ->
      In (PyStr.lower (PyStr.strip answer)) yes_words ->
      size_prompt w = (Ret n, confirming rest')).
Proof.
  cbv zeta.
  assert (Hlarge : forall n,
             PyStr.int (PyStr.strip line) = Some n -> (65536 < n)%Z ->
             size_prompt {| stdin := Line line :: rest; service := sv; trace := tr |} =
             match rest with
             | Line answer :: rest' =>
                 if answered_yes answer
                 then (Ret n,
                       {| stdin := rest'; service := sv;
                          trace := tr ++ [Prompted AskVectorSize; Printed SizeVeryLarge;
                                          Prompted AskLargeSize] |})
                 else size_prompt
                        {| stdin := rest'; service := sv;
                           trace := tr ++ [Prompted AskVectorSize; Printed SizeVeryLarge;
                                           Prompted AskLargeSize] |}
             | CtrlC :: rest' =>
                 (Raise KeyboardInterrupt,
                  {| stdin := rest'; service := sv;
                     trace := tr ++ [Prompted AskVectorSize; Printed SizeVeryLarge;
                                     Prompted AskLargeSize] |})
             | Eof :: rest' =>
                 (Raise (Error EOFError),
                  {| stdin := rest'; service := sv;
                     trace := tr ++ [Prompted AskVectorSize; Printed SizeVeryLarge;
                                     Prompted AskLargeSize] |})
             | [] =>
                 (Raise (Error EOFError),
                  {| stdin := []; service := sv;
                     trace := tr ++ [Prompted AskVectorSize; Printed SizeVeryLarge;
                                     Prompted AskLargeSize] |})
             end).
  { intros n Hint Hbig. unfold size_prompt at 1.
    rewrite while_true_unfold by (intro; apply consumes_size_iteration).
    unfold size_iteration, try_except, bind, int_or_raise. simpl.
    rewrite (int_some_not_blank _ _ Hint), Hint. simpl.
    assert (Hpos : (n <=? 0)%Z = false) by (apply Z.leb_gt; lia).
    apply Z.ltb_lt in Hbig. rewrite Hpos, Hbig.
    destruct rest as [|[answer| |] rest']; simpl;
      try destruct (answered_yes answer); simpl;
      unfold record; simpl; rewrite <- ?app_assoc; reflexivity. }
  split; [| split; [| split]].
  - intro Hblank. unfold size_prompt.
    rewrite while_true_unfold by (intro; apply consumes_size_iteration).
    unfold size_iteration, try_except, bind. simpl. rewrite Hblank. reflexivity.
  - intros n Hint Hle. unfold size_prompt at 1.
    rewrite while_true_unfold by (intro; apply consumes_size_iteration).
    unfold size_iteration, try_except, bind, int_or_raise. simpl.
    rewrite (int_some_not_blank _ _ Hint), Hint. simpl.
    apply Z.leb_le in Hle. rewrite Hle. reflexivity.
  - intros n Hint Hbig _. exact (Hlarge n Hint Hbig).
  - intros n answer rest' Hint Hbig Hrest Hyes.
    rewrite (Hlarge n Hint Hbig), Hrest.
    unfold answered_yes. apply mem_In in Hyes. rewrite Hyes. reflexivity.
Qed.

(** A size of 70000 is put to the user, who declines, enters it again and
    then accepts it. *)
Lemma vector_size_prompt_witness :
  size_prompt
    {| stdin := [Line "70000"; Line "n"; Line " 70_000 "; Line " Yes "];
       service := []; trace := [] |} =
  (Ret 70000%Z,
   {| stdin := []; service := [];
      trace := [Prompted AskVectorSize; Printed SizeVeryLarge; Prompted AskLargeSize;
                Prompted AskVectorSize; Printed SizeVeryLarge; Prompted AskLargeSize] |}).
Proof.
  destruct (vector_size_prompt "70000" [Line "n"; Line " 70_000 "; Line " Yes "] [] [])
    as (_ & _ & Hbig & _).
  rewrite (Hbig 70000%Z eq_refl eq_refl)
    by (intros answer rest' E; injection E as <- _; reflexivity).
  change (answered_yes "n") with false. cbv iota.
  destruct (vector_size_prompt " 70_000 " [Line " Yes "] []
              [Prompted AskVectorSize; Printed SizeVeryLarge; Prompted AskLargeSize])
    as (_ & _ & _ & Hyes).
  apply (Hyes 70000%Z " Yes " [] eq_refl eq_refl eq_refl).
  right. left. reflexivity.
Defined.

Section CreateFlow.

Variable self : manager.

Lemma size_prompt_default
  (rest : list console_event) (sv : list http_reply) (tr : list event) :
  size_prompt {| stdin := Line "" :: rest; service := sv; trace := tr |} =
  (Ret 1536%Z,
   {| stdin := rest; service := sv; trace := tr ++ [Prompted AskVectorSize] |}).
Proof. reflexivity. Qed.

Lemma distance_prompt_default
  (rest : list console_event) (sv : list http_reply) (tr : list event) :
  distance_prompt {| stdin := Line "" :: rest; service := sv; trace := tr |} =
  (Ret "Cosine",
   {| stdin := rest; service := sv; trace := tr ++ [Prompted AskDistance] |}).
Proof. reflexivity. Qed.

Lemma name_accepted_when_list_fails (line : string)
  (rest : list console_event) (sv : list http_reply) (tr : list event) :
  PyStr.strip line <> "" ->
  list_fails self sv ->
  exists notes,
    name_prompt self {| stdin := Line line :: rest; service := sv; trace := tr |} =
    (Ret (PyStr.strip line),
     {| stdin := rest; service := tl sv;
        trace := tr ++ Prompted AskName :: Requested (list_request self)
                    :: map Printed notes |}) /\
    forallb list_note notes = true.
Proof.
  intros Hnonblank Hfails.
  destruct (get_collections_run self rest sv (tr ++ [Prompted AskName]))
    as (fetched & notes & E & Hnotes).
  pose proof (Hfails rest (tr ++ [Prompted AskName])) as Hnone.
  rewrite E in Hnone. simpl in Hnone. injection Hnone as ->.
  exists notes. split; [| exact Hnotes]. unfold name_prompt.
  rewrite while_true_unfold by (intro; apply consumes_name_iteration).
  rewrite name_iteration_run. cbv zeta.
  apply String.eqb_neq in Hnonblank. rewrite Hnonblank, E.
  rewrite <- app_assoc. reflexivity.
Qed.

Lemma get_collection_config_defaults (line : string)
  (rest : list console_event) (sv : list http_reply) (tr : list event) :
  PyStr.strip line <> "" ->
  list_fails self sv ->
  exists evs,
    get_collection_config self
      {| stdin := Line line :: Line "" :: Line "" :: Line "y" :: rest;
         service := sv; trace := tr |} =
    (Ret (Some (PyStr.strip line, default_config)),
     {| stdin := rest; service := tl sv; trace := tr ++ evs |}).
Proof.
  intros Hnonblank Hfails.
  destruct (name_accepted_when_list_fails line
              (Line "" :: Line "" :: Line "y" :: rest) sv
              (tr ++ [Printed ConfigHeader]) Hnonblank Hfails) as (notes & E & _).
  unfold get_collection_config, try_except.
  unfold bind at 1. unfold print at 1, emit, record. cbn [stdin service trace].
  unfold bind at 1. rewrite E.
  unfold bind at 1. unfold print at 1, emit, record. cbn [stdin service trace].
  unfold bind at 1. rewrite size_prompt_default.
  unfold bind at 1. unfold print at 1, emit, record. cbn [stdin service trace].
  unfold bind at 1. rewrite distance_prompt_default.
  unfold bind, print, emit, record, input. cbn [stdin service trace].
  change (answered_yes "y") with true. cbv iota.
  eexists. unfold ret, default_config, record. cbn [stdin service trace].
  rewrite <- !app_assoc. reflexivity.
Qed.

Lemma in_trace_later {A} (m : M A) (w : world) (ev : event) :
  tame m -> In ev (trace w) -> In ev (trace (snd (m w))).
Proof.
  intros Hm Hin. destruct (Hm w) as [_ _ _ [evs ->]].
  apply in_or_app. now left.
Qed.

(** C9. When the list request made to validate a non-blank name (a line
    of ASCII text, where the blanks of the model are Python's) gives no
    result, the name is taken without the duplicate check; and if the user
    then keeps the defaults and confirms, the create request for that name
    goes out, whatever the service holds. *)
Theorem create_proceeds_when_list_fails (line : string)
  (rest : list console_event) (sv : list http_reply) (tr : list event)
  (stale : collections_var) :
  PyStr.isascii line = true ->
  PyStr.strip line <> "" ->
  list_fails self sv ->
  (exists notes,
      name_prompt self {| stdin := Line line :: rest; service := sv; trace := tr |} =
      (Ret (PyStr.strip line),
       {| stdin := rest; service := tl sv;
          trace := tr ++ Prompted AskName :: Requested (list_request self)
                      :: map Printed notes |}) /\
      ~ In (NameExists (PyStr.strip line)) notes) /\
  In (Requested (create_request self (PyStr.strip line) default_config))
     (trace (snd (menu_action self "2" stale
                    {| stdin := Line line :: Line "" :: Line "" :: Line "y" :: rest;
                       service := sv; trace := tr |}))).
Proof.
  intros _ Hnonblank Hfails. split.
  - destruct (name_accepted_when_list_fails line rest sv tr Hnonblank Hfails)
      as (notes & E & Hnotes).
    exists notes. split; [exact E |].
    intro Hin. rewrite forallb_forall in Hnotes.
    specialize (Hnotes _ Hin). discriminate Hnotes.
  - destruct (get_collection_config_defaults line rest sv tr Hnonblank Hfails)
      as [evs E].
    unfold menu_action.
    change (String.eqb "2" "1") with false. change (String.eqb "2" "2") with true.
    cbv iota. unfold create_branch. rewrite !bind_run, E. rewrite !bind_run.
    destruct (create_collection_run self (PyStr.strip line) default_config
                rest (tl sv) (tr ++ evs)) as (created & notes & ->).
    match goal with
    | |- context [(if created then ?m else _) ?w] =>
        assert (Hm : tame m) by tame_tac;
        assert (Hin : In (Requested (create_request self (PyStr.strip line)
                                       default_config)) (trace w))
          by (simpl; apply in_or_app; right; right; left; reflexivity);
        pose proof (in_trace_later m w _ Hm Hin) as Hlater;
        destruct created; [destruct (m w) as [[[]|e|] w3] |]; simpl in *; assumption
    end.
Qed.

End CreateFlow.

(** The create request goes out for [docs] after the list request got a 500. *)
Lemma create_proceeds_when_list_fails_witness :
  In (Requested (create_request sample_manager "docs" default_config))
     (trace (snd (menu_action sample_manager "2" Unbound
                    {| stdin := [Line "docs"; Line ""; Line ""; Line "y"];
                       service := [Response 500 None; accepted_reply];
                       trace := [] |}))).
Proof.
  refine (proj2 (create_proceeds_when_list_fails sample_manager "docs" []
                   [Response 500 None; accepted_reply] [] Unbound eq_refl _ _)).
  - discriminate.
  - intros inp tr. reflexivity.
Defined.

(** ** How the process ends *)

Lemma load_config_run (env : environ) (w : world) :
  match load_config env w with
  | (Ret (h, _, _, _), w') =>
      dotenv_loads env = true /\ host_missing env = false /\
      stdin w' = stdin w /\ service w' = service w
  | (Raise (Error kind), w') =>
      dotenv_loads env = false /\ kind = OSError /\ w' = w
  | (Raise (SystemExit code), w') =>
      dotenv_loads env = true /\ host_missing env = true /\ code = 1%Z
  | _ => False
  end.
Proof.
  unfold load_config, host_missing, bind.
  destruct env as [loads h p u pw]. simpl.
  destruct loads; simpl; [| auto].
  destruct h as [[|c r]|]; simpl; auto.
  destruct (negb (truthy u) || negb (truthy pw)); simpl; auto.
Qed.

Lemma init_run (env : environ) (w : world) :
  match init env w with
  | (Ret self, w') =>
      dotenv_loads env = true /\ host_missing env = false /\
      stdin w' = stdin w /\ service w' = service w
  | (Raise (Error kind), w') =>
      dotenv_loads env = false /\ kind = OSError /\ w' = w
  | (Raise (SystemExit code), w') =>
      dotenv_loads env = true /\ host_missing env = true /\ code = 1%Z
  | _ => False
  end.
Proof.
  unfold init, bind. pose proof (load_config_run env w) as H.
  destruct (load_config env w) as [[[[[h p] u] pw]|[|code|kind]|] w'];
    simpl; assumption.
Qed.

(** Past the connectivity check, [run] always comes back: whatever ends
    the menu loop is handled. *)
Lemma guarded_loop_returns (self : manager) (w : world) :
  exists w',
    (try_except (menu_loop self)
       (fun e =>
          match e with
          | KeyboardInterrupt => Some (print Interrupted)
          | Error kind => Some (print (Unexpected kind) ;; print Traceback)
          | SystemExit _ => None
          end) ;;
     print Goodbye) w = (Ret tt, w').
Proof.
  unfold bind at 1, try_except.
  destruct (tame_menu_loop self w) as [Hfuel Hexit _ _].
  destruct (menu_loop self w) as [[[]|[|code|kind]|] w1]; simpl in *.
  - eexists. reflexivity.
  - eexists. reflexivity.
  - exfalso. apply (Hexit code). reflexivity.
  - eexists. reflexivity.
  - exfalso. apply Hfuel. reflexivity.
Qed.

Lemma run_outcome (self : manager) (w : world) :
  fst (run self w) =
  if unreachable (service w) then Raise (SystemExit 1) else Ret tt.
Proof.
  destruct w as [inp sv tr].
  unfold run. unfold bind at 1. unfold print at 1, emit, record.
  cbn [stdin service trace]. unfold bind at 1.
  destruct (test_connection_run self inp sv (tr ++ [Printed Banner])) as [notes ->].
  destruct (unreachable sv); cbn [negb].
  - reflexivity.
  - match goal with
    | |- context [(_ ;; print Goodbye) ?w1] =>
        destruct (guarded_loop_returns self w1) as [w' ->]
    end.
    reflexivity.
Qed.

(** The whole program is total: [main] returns, or stops the process
    with status 1 when startup fails. *)
Lemma main_outcome (env : environ) (w : world) :
  fst (main env w) =
  if startup_fails env w then Raise (SystemExit 1) else Ret tt.
Proof.
  unfold main, try_except, startup_fails. unfold bind at 1.
  pose proof (init_run env w) as H.
  destruct (init env w) as [[self|[|code|kind]|] w0]; try contradiction.
  - destruct H as (-> & -> & _ & Hsv). simpl negb. cbn [orb].
    pose proof (run_outcome self w0) as Hrun. rewrite Hsv in Hrun.
    destruct (run self w0) as [r w1]. simpl in Hrun. subst r.
    destruct (unreachable (service w)); reflexivity.
  - destruct H as (-> & -> & ->). reflexivity.
  - destruct H as (-> & -> & ->). reflexivity.
Qed.

(** C7. The process ends with status 1 exactly when startup fails (the
    manager cannot be built because the host variable is missing or empty or
    the environment cannot be loaded, or the first connectivity check does
    not get a 200) and with status 0 in every other case; once the
    environment is loaded, the status is nonzero exactly when the host is
    missing or the connectivity check fails; and a user who quits from the
    menu gets a normal return, status 0. *)
Theorem exit_status_of_main (env : environ) (w : world) :
  exit_status (fst (main env w)) =
    Some (if startup_fails env w then 1%Z else 0%Z) /\
  (exit_status (fst (main env w)) <> Some 0%Z <-> startup_fails env w = true) /\
  (dotenv_loads env = true ->
   (exit_status (fst (main env w)) <> Some 0%Z <->
    host_missing env = true \/ unreachable (service w) = true)) /\
  (forall rest sv tr,
      dotenv_loads env = true -> host_missing env = false ->
      w = {| stdin := Line "5" :: rest; service := Response 200 None :: sv;
             trace := tr |} ->
      fst (main env w) = Ret tt /\ stdin (snd (main env w)) = rest).
Proof.
  split; [| split; [| split]].
  - rewrite main_outcome. destruct (startup_fails env w); reflexivity.
  - rewrite main_outcome. destruct (startup_fails env w); simpl; split;
      intro H; try reflexivity; try discriminate; now contradiction H.
  - intro Hloads. rewrite main_outcome. unfold startup_fails. rewrite Hloads.
    simpl negb. cbn [orb]. rewrite <- orb_true_iff.
    destruct (host_missing env || unreachable (service w)); simpl; split;
      intro H; try reflexivity; try discriminate; now contradiction H.
  - intros rest sv tr Hloads Hhost ->.
    split.
    + rewrite main_outcome. unfold startup_fails. rewrite Hloads, Hhost.
      reflexivity.
    + unfold main, try_except. unfold bind at 1.
      pose proof (init_run env {| stdin := Line "5" :: rest;
                                  service := Response 200 None :: sv;
                                  trace := tr |}) as H.
      destruct (init env _) as [[self|[|code|kind]|] [inp0 sv0 tr0]];
        try contradiction.
      * destruct H as (_ & _ & Hin & Hsv). simpl in Hin, Hsv. subst inp0 sv0.
        reflexivity.
      * destruct H as (_ & E & _). rewrite Hhost in E. discriminate E.
      * destruct H as (E & _). rewrite Hloads in E. discriminate E.
Qed.

(** A reachable service and a user who quits at once: status 0. *)
Lemma exit_status_of_main_witness :
  fst (main sample_environ
         {| stdin := [Line "5"]; service := [Response 200 None]; trace := [] |})
  = Ret tt /\
  stdin (snd (main sample_environ
                {| stdin := [Line "5"]; service := [Response 200 None];
                   trace := [] |})) = [].
Proof.
  exact (proj2 (proj2 (proj2 (exit_status_of_main sample_environ
                                {| stdin := [Line "5"];
                                   service := [Response 200 None];
                                   trace := [] |})))
           [] [] [] eq_refl eq_refl eq_refl).
Defined.

(** C10. Once startup is over, an exception (a subclass of [Exception])
    that escapes a round of the menu loop is caught by [run], which prints
    it with a traceback and says goodbye; [main] then returns and the
    process ends with status 0.  And when the body of [main]'s own handler
    raises such an exception, it was raised by the construction of the
    manager, before the loop. *)
Theorem unexpected_exception_in_loop (env : environ) (w : world) :
  (forall self w0 w1 kind w2,
      init env w = (Ret self, w0) ->
      test_connection self (record (Printed Banner) w0) = (Ret true, w1) ->
      menu_loop self w1 = (Raise (Error kind), w2) ->
      main env w =
        (Ret tt,
         record (Printed Goodbye)
           (record (Printed Traceback) (record (Printed (Unexpected kind)) w2))) /\
      exit_status (fst (main env w)) = Some 0%Z) /\
  (forall kind w',
      (manager <- init env ;; run manager) w = (Raise (Error kind), w') ->
      init env w = (Raise (Error kind), w')).
Proof.
  split.
  - intros self w0 w1 kind w2 Hinit Hcheck Hloop.
    assert (E : main env w =
                (Ret tt,
                 record (Printed Goodbye)
                   (record (Printed Traceback)
                      (record (Printed (Unexpected kind)) w2)))).
    { unfold main, try_except. unfold bind at 1. rewrite Hinit.
      unfold run. unfold bind at 1. unfold print at 1, emit.
      unfold bind at 1. rewrite Hcheck. cbn [negb].
      unfold bind at 1, try_except. rewrite Hloop. reflexivity. }
    split; [exact E | rewrite E; reflexivity].
  - intros kind w'. unfold bind.
    destruct (init env w) as [[self|e|] w0] eqn:Hinit.
    + intro Hrun. pose proof (run_outcome self w0) as H. rewrite Hrun in H.
      simpl in H. destruct (unreachable (service w0)); discriminate H.
    + intro H. injection H as -> ->. reflexivity.
    + intro H. discriminate H.
Qed.

(** The input ends while the create flow waits for a name: [EOFError]. *)
Lemma unexpected_exception_in_loop_witness :
  main sample_environ
    {| stdin := [Line "2"]; service := [Response 200 None]; trace := [] |} =
  (Ret tt,
   {| stdin := []; service := [];
      trace := [Printed CredentialsIncomplete; Printed Banner; Printed Probing;
                Requested (ping_request sample_manager); Printed Connected;
                Printed Menu; Prompted AskMenu; Printed ConfigHeader;
                Prompted AskName; Printed (Unexpected EOFError); Printed Traceback;
                Printed Goodbye] |}).
Proof.
  refine (proj1 (proj1 (unexpected_exception_in_loop sample_environ
                          {| stdin := [Line "2"]; service := [Response 200 None];
                             trace := [] |})
                   sample_manager _ _ EOFError _ eq_refl eq_refl eq_refl)).
Defined.

(** ** Interrupts *)

(** C5, where the code falls short of it.  The user picks delete, selects
    the first collection and interrupts the confirmation prompt: the
    interrupt is not caught by [confirm_deletion], it ends the menu loop, and
    the input still pending (here further menu choices) is never read. *)
Theorem interrupt_at_deletion_prompt_ends_program
  (self : manager) (rest : list console_event) (sv : list http_reply) :
  run self
    {| stdin := Line "4" :: Line "1" :: CtrlC :: rest;
       service := Response 200 None :: listing_reply [entry "docs"] :: sv;
       trace := [] |} =
  (Ret tt,
   {| stdin := rest; service := sv;
      trace := [Printed Banner; Printed Probing; Requested (ping_request self);
                Printed Connected; Printed Menu; Prompted AskMenu;
                Requested (list_request self); Printed (Listing [entry "docs"]);
                Printed (SelectionHelp "borrar"); Prompted (AskSelection "borrar");
                Printed (DeletionWarning ["docs"]); Prompted AskDeletion;
                Printed Interrupted; Printed Goodbye] |}).
Proof. reflexivity. Qed.

(** The sibling prompts do what C5 says: interrupted at the selection
    prompt, the delete action is dropped and the menu comes back. *)
Lemma interrupt_at_selection_prompt_returns_to_menu
  (self : manager) (rest : list console_event) (sv : list http_reply) :
  run self
    {| stdin := Line "4" :: CtrlC :: Line "" :: Line "5" :: rest;
       service := Response 200 None :: listing_reply [entry "docs"] :: sv;
       trace := [] |} =
  (Ret tt,
   {| stdin := rest; service := sv;
      trace := [Printed Banner; Printed Probing; Requested (ping_request self);
                Printed Connected; Printed Menu; Prompted AskMenu;
                Requested (list_request self); Printed (Listing [entry "docs"]);
                Printed (SelectionHelp "borrar"); Prompted (AskSelection "borrar");
                Printed Cancelled; Prompted AskContinue;
                Printed Menu; Prompted AskMenu; Printed Goodbye] |}).
Proof. reflexivity. Qed.

(** [confirm_deletion] lets the interrupt through, for any batch. *)
Lemma confirm_deletion_interrupted (names : list string)
  (rest : list console_event) (sv : list http_reply) (tr : list event) :
  confirm_deletion names {| stdin := CtrlC :: rest; service := sv; trace := tr |} =
  (Raise KeyboardInterrupt,
   {| stdin := rest; service := sv;
      trace := (tr ++ [Printed (DeletionWarning names)]) ++ [Prompted AskDeletion] |}).
Proof. reflexivity. Qed.

(** ** No collection state between menu actions *)

Section Stateless.

Variable self : manager.

(** A round of the menu loop does not read what an earlier round left in
    the variable [collections]. *)
Lemma menu_iteration_ignores_stale (c1 c2 : collections_var) (w : world) :
  snd (menu_iteration self c1 w) = snd (menu_iteration self c2 w) /\
  control (fst (menu_iteration self c1 w)) = control (fst (menu_iteration self c2 w)).
Proof.
  unfold menu_iteration. rewrite !bind_run.
  destruct (show_main_menu w) as [[choice|e|] w1]; [| split; reflexivity..].
  destruct (String.eqb choice "5"); [split; reflexivity |].
  rewrite !bind_run. unfold menu_action.
  destruct (String.eqb choice "1"); [split; reflexivity |].
  destruct (String.eqb choice "2").
  - rewrite !bind_run.
    destruct (create_branch self w1) as [[[]|e|] w3]; try (split; reflexivity).
    unfold ret. rewrite !bind_run.
    destruct (input AskContinue w3) as [[line|e|] w4]; split; reflexivity.
  - destruct (String.eqb choice "3"); [split; reflexivity |].
    destruct (String.eqb choice "4"); [split; reflexivity |].
    unfold ret. rewrite !bind_run.
    destruct (input AskContinue w1) as [[line|e|] w4]; split; reflexivity.
Qed.

Lemma menu_loop_ignores_stale (fuel : nat) (c1 c2 : collections_var) (w : world) :
  while_fuel fuel (menu_iteration self) c1 w =
  while_fuel fuel (menu_iteration self) c2 w.
Proof.
  revert c1 c2 w. induction fuel as [|n IH]; intros c1 c2 w; [reflexivity |].
  simpl. unfold bind.
  destruct (menu_iteration_ignores_stale c1 c2 w) as [Hw Hc].
  destruct (menu_iteration self c1 w) as [[[l1|[]]|e1|] w1];
    destruct (menu_iteration self c2 w) as [[[l2|[]]|e2|] w2];
    simpl in *; subst; try discriminate; try reflexivity.
  - apply IH.
  - now injection Hc as ->.
Qed.

(** An action that works on the collection list begins by fetching it,
    and goes on with what the reply to that request holds. *)
Lemma listing_action_runs (before : world)
  (use : option (list collection) -> M unit) :
  (forall fetched, tame (use fetched)) ->
  let fetched := listing_of (reply_at (service before) 0) in
  let action := (fetched' <- get_collections self ;;
                 use fetched' ;; ret (Bound fetched')) in
  exists w1 more,
    get_collections self before = (Ret fetched, w1) /\
    requests_of (trace w1) = requests_of (trace before) ++ [list_request self] /\
    action before = (use fetched ;; ret (Bound fetched)) w1 /\
    requests_of (trace (snd (action before))) =
      requests_of (trace before) ++ list_request self :: more /\
    (forall c' : collections_var, fst (action before) = Ret c' -> c' = Bound fetched).
Proof.
  intro Huse. cbv zeta. destruct before as [inp sv tr]. cbn [service trace].
  destruct (get_collections_reply self inp sv tr) as (notes & E & _).
  set (fetched := listing_of (reply_at sv 0)) in *.
  destruct (Huse fetched
              {| stdin := inp; service := tl sv;
                 trace := tr ++ Requested (list_request self) :: map Printed notes |})
    as [_ _ _ [evs Hevs]].
  eexists _, (requests_of evs). split; [exact E |].
  split; [| split; [rewrite bind_run, E; reflexivity |]].
  { cbn [trace]. rewrite requests_of_app. cbn [requests_of flat_map app].
    fold (requests_of (map Printed notes)). now rewrite requests_of_prints. }
  rewrite !bind_run, E, !bind_run.
  destruct (use fetched _) as [[[]|e|] w2]; cbn [fst snd trace] in *;
    unfold ret; cbn [fst snd trace]; rewrite Hevs;
    (split;
     [ rewrite !requests_of_app; cbn [requests_of flat_map app];
       fold (requests_of (map Printed notes)); rewrite requests_of_prints;
       now rewrite <- app_assoc
     | intros c' H; try discriminate H; now injection H as <- ]).
Qed.

(** C8. The manager is a parameter that no method changes, and the menu
    loop carries nothing else that is read: what an earlier action left in
    [collections] does not influence the rounds that follow; the list,
    detail and delete actions begin with a list request, work on what the
    reply to that request holds and on nothing else, and leave it in the
    variable; and validating a non-blank name (a line of ASCII text) in the
    create flow makes a list request of its own. *)
Theorem no_collection_state_between_actions :
  (forall stale w, while_true (menu_iteration self) stale w = menu_loop self w) /\
  (forall choice stale w,
      In choice listing_choices ->
      let before :=
        if String.eqb choice "1" then record (Printed Fetching) w else w in
      let fetched := listing_of (reply_at (service w) 0) in
      exists w1 more,
        get_collections self before = (Ret fetched, w1) /\
        requests_of (trace w1) = requests_of (trace w) ++ [list_request self] /\
        menu_action self choice stale w =
          (listing_branch self choice fetched ;; ret (Bound fetched)) w1 /\
        requests_of (trace (snd (menu_action self choice stale w))) =
          requests_of (trace w) ++ list_request self :: more /\
        (forall c', fst (menu_action self choice stale w) = Ret c' ->
                    c' = Bound fetched)) /\
  (forall line rest sv tr,
      PyStr.isascii line = true ->
      PyStr.strip line <> "" ->
      requests_of
        (trace (snd (name_iteration self
                       {| stdin := Line line :: rest; service := sv; trace := tr |}))) =
      requests_of tr ++ [list_request self]).
Proof.
  split; [| split].
  - intros stale w. unfold menu_loop, while_true. apply menu_loop_ignores_stale.
  - intros choice stale w Hin. cbv zeta.
    destruct Hin as [<- | [<- | [<- | []]]].
    + change (String.eqb "1" "1") with true. cbv iota.
      unfold menu_action, listing_branch.
      change (String.eqb "1" "1") with true. cbv iota.
      rewrite bind_run. unfold print at 1, emit. cbv iota beta.
      destruct (listing_action_runs (record (Printed Fetching) w) list_branch)
        as (w1 & more & E & Hfirst & Hrun & Hreq & Hret); [intro; tame_tac |].
      assert (Htrace : requests_of (trace (record (Printed Fetching) w)) =
                       requests_of (trace w)).
      { unfold record. cbn [trace]. rewrite requests_of_app. simpl.
        now rewrite app_nil_r. }
      rewrite Htrace in Hfirst, Hreq.
      exists w1, more. repeat split; assumption.
    + change (String.eqb "3" "1") with false. cbv iota.
      unfold menu_action, listing_branch.
      change (String.eqb "3" "1") with false. change (String.eqb "3" "2") with false.
      change (String.eqb "3" "3") with true. cbv iota.
      apply (listing_action_runs w (details_branch self)).
      intro; tame_tac.
    + change (String.eqb "4" "1") with false. cbv iota.
      unfold menu_action, listing_branch.
      change (String.eqb "4" "1") with false. change (String.eqb "4" "2") with false.
      change (String.eqb "4" "3") with false. change (String.eqb "4" "4") with true.
      cbv iota.
      apply (listing_action_runs w (delete_branch self)).
      intro; tame_tac.
  - intros line rest sv tr _ Hnonblank.
    rewrite name_iteration_run. cbv zeta.
    apply String.eqb_neq in Hnonblank. rewrite Hnonblank.
    destruct (get_collections_run self rest sv (tr ++ [Prompted AskName]))
      as (fetched & notes & -> & _).
    destruct (match fetched with Some (col :: cols) => _ | _ => false end);
      simpl; rewrite <- ?app_assoc, !requests_of_app; simpl;
      rewrite ?requests_of_app, requests_of_prints; simpl;
      rewrite ?app_nil_r; reflexivity.
Qed.

End Stateless.

(** The delete action, with an old listing left in the variable, fetches
    the list first and works on the listing of the reply; and the create
    flow fetches it to validate [docs]. *)
Lemma no_collection_state_between_actions_witness :
  menu_action sample_manager "4" (Bound (Some [entry "old"]))
    {| stdin := [Line "q"]; service := [listing_reply [entry "docs"]]; trace := [] |} =
  (delete_branch sample_manager (Some [entry "docs"]) ;;
   ret (Bound (Some [entry "docs"])))
    {| stdin := [Line "q"]; service := [];
       trace := [Requested (list_request sample_manager)] |} /\
  requests_of
    (trace (snd (name_iteration sample_manager
                   {| stdin := [Line "docs"]; service := [listing_reply []];
                      trace := [] |}))) =
  requests_of [] ++ [list_request sample_manager].
Proof.
  destruct (no_collection_state_between_actions sample_manager) as (_ & Hfetch & Hname).
  split.
  - destruct (Hfetch "4" (Bound (Some [entry "old"]))
                {| stdin := [Line "q"]; service := [listing_reply [entry "docs"]];
                   trace := [] |})
      as (w1 & more & E & _ & Hrun & _).
    + right. right. left. reflexivity.
    + injection E as <-. exact Hrun.
  - apply Hname; [reflexivity | discriminate].
Defined.

(** * Further properties of the manager *)

(** ** Postconditions *)

Lemma ensures_ret {A} (a : A) (Q : A -> world -> Prop) :
  (forall w, Q a w) -> ensures (ret a) Q.
Proof. intros H w b w' E. injection E as <- <-. apply H. Qed.

Lemma ensures_raise {A} (e : exn) (Q : A -> world -> Prop) :
  ensures (raise e) Q.
Proof. intros w b w' E. discriminate E. Qed.

Lemma ensures_bind {A B} (m : M A) (f : A -> M B) (Q : B -> world -> Prop) :
  (forall a, ensures (f a) Q) -> ensures (bind m f) Q.
Proof.
  intros Hf w b w' E. rewrite bind_run in E.
  destruct (m w) as [[a|e|] w1]; try discriminate E. exact (Hf a w1 b w' E).
Qed.

Lemma ensures_try_except {A} (m : M A) (handler : exn -> option (M A))
  (Q : A -> world -> Prop) :
  ensures m Q -> (forall e h, handler e = Some h -> ensures h Q) ->
  ensures (try_except m handler) Q.
Proof.
  intros Hm Hh w a w' E. unfold try_except in E.
  destruct (m w) as [[b|e|] w1] eqn:Em; try discriminate E.
  - injection E as <- <-. exact (Hm w b w1 Em).
  - destruct (handler e) as [h|] eqn:Eh; [| discriminate E].
    exact (Hh e h Eh w1 a w' E).
Qed.

Lemma ensures_while_fuel {L A} (body : L -> M (step L A)) (Q : A -> world -> Prop) :
  (forall l, ensures (body l) (on_break Q)) ->
  forall fuel l, ensures (while_fuel fuel body l) Q.
Proof.
  intros Hbody fuel. induction fuel as [|n IH]; intros l w a w' E.
  - discriminate E.
  - simpl in E. rewrite bind_run in E.
    destruct (body l w) as [[[l'|b]|e|] w1] eqn:Eb; try discriminate E.
    + exact (IH l' w1 a w' E).
    + injection E as <- <-. exact (Hbody l w (Break b) w1 Eb).
Qed.

Lemma ensures_while_true {L A} (body : L -> M (step L A)) (l : L)
  (Q : A -> world -> Prop) :
  (forall l, ensures (body l) (on_break Q)) -> ensures (while_true body l) Q.
Proof.
  intros Hbody w a w' E. unfold while_true in E.
  exact (ensures_while_fuel body Q Hbody _ l w a w' E).
Qed.

Lemma ensures_for_each_until {X L A} (body : X -> L -> M (step L A))
  (I : L -> Prop) (Q : A -> world -> Prop) :
  (forall x l, I l ->
     ensures (body x l)
       (fun c w => match c with Continue l' => I l' | Break a => Q a w end)) ->
  forall xs l, I l ->
    ensures (for_each_until xs body l)
      (fun c w => match c with Continue l' => I l' | Break a => Q a w end).
Proof.
  intros Hbody xs. induction xs as [|x xs IH]; intros l Hl w c w' E; simpl in E.
  - injection E as <- <-. exact Hl.
  - rewrite bind_run in E.
    destruct (body x l w) as [[[l'|b]|e|] w1] eqn:Eb; try discriminate E.
    + exact (IH l' (Hbody x l Hl w _ w1 Eb) w1 c w' E).
    + injection E as <- <-. exact (Hbody x l Hl w _ w1 Eb).
Qed.

(** ** Interrupts that are caught *)

Lemma uninterrupted_ret {A} (a : A) : uninterrupted (ret a).
Proof. intro w. discriminate. Qed.

Lemma uninterrupted_print (m : message) : uninterrupted (print m).
Proof. intro w. discriminate. Qed.

Lemma uninterrupted_bind {A B} (m : M A) (f : A -> M B) :
  uninterrupted m -> (forall a, uninterrupted (f a)) -> uninterrupted (bind m f).
Proof.
  intros Hm Hf w. rewrite bind_run. specialize (Hm w).
  destruct (m w) as [[a|e|] w1]; simpl in *; [apply Hf | | discriminate].
  intro E. apply Hm. congruence.
Qed.

Lemma uninterrupted_caught {A} (m h : M A) :
  uninterrupted h -> uninterrupted (try_except m (except_KeyboardInterrupt h)).
Proof.
  intros Hh w. unfold try_except.
  destruct (m w) as [[a|[|code|kind]|] w1]; simpl; try discriminate. apply Hh.
Qed.

Lemma uninterrupted_while_true {L A} (body : L -> M (step L A)) (l : L) :
  (forall l, uninterrupted (body l)) -> uninterrupted (while_true body l).
Proof.
  intros Hbody w. unfold while_true.
  generalize (S (length (stdin w))) as fuel. intro fuel. revert l w.
  induction fuel as [|n IH]; intros l w; simpl; [discriminate |].
  rewrite bind_run. specialize (Hbody l w).
  destruct (body l w) as [[[l'|a]|e|] w1]; simpl in *;
    [apply IH | discriminate | | discriminate].
  intro E. apply Hbody. congruence.
Qed.

(** X1. The main menu, the selection prompt and the whole create dialogue
    never let a keyboard interrupt through: whatever the user does and the
    service answers, none of them ends with [KeyboardInterrupt]. *)
Theorem prompts_catch_interrupts (self : manager)
  (collections : list collection) (action : string) :
  uninterrupted show_main_menu /\
  uninterrupted (get_user_selection collections action) /\
  uninterrupted (get_collection_config self).
Proof.
  split; [| split].
  - unfold show_main_menu. apply uninterrupted_bind; [apply uninterrupted_print |].
    intros _. apply uninterrupted_while_true. intros _.
    apply uninterrupted_caught, uninterrupted_bind;
      [apply uninterrupted_print | intro; apply uninterrupted_ret].
  - unfold get_user_selection.
    apply uninterrupted_bind; [apply uninterrupted_print |].
    intros _. apply uninterrupted_while_true. intros _.
    unfold selection_iteration.
    apply uninterrupted_caught, uninterrupted_bind;
      [apply uninterrupted_print | intro; apply uninterrupted_ret].
  - unfold get_collection_config.
    apply uninterrupted_bind; [apply uninterrupted_print |].
    intros _.
    apply uninterrupted_caught, uninterrupted_bind;
      [apply uninterrupted_print | intro; apply uninterrupted_ret].
Qed.

Lemma ensures_seq {A B} (m : M A) (f : A -> M B) (P : A -> Prop)
  (Q : B -> world -> Prop) :
  ensures m (fun a _ => P a) -> (forall a, P a -> ensures (f a) Q) ->
  ensures (bind m f) Q.
Proof.
  intros Hm Hf w b w' E. rewrite bind_run in E.
  destruct (m w) as [[a|e|] w1] eqn:Em; try discriminate E.
  exact (Hf a (Hm w a w1 Em) w1 b w' E).
Qed.

Lemma distance_prompt_in_metrics :
  ensures distance_prompt (fun metric _ => In metric metrics).
Proof.
  unfold distance_prompt. apply ensures_while_true. intros _.
  apply ensures_bind. intro line. cbv zeta.
  destruct (distance_options _) as [metric|] eqn:E.
  - apply ensures_ret. intros w. simpl. unfold distance_options in E.
    repeat match type of E with
           | (if ?b then _ else _) = _ => destruct b
           end; try discriminate E; injection E as <-; simpl; tauto.
  - apply ensures_bind. intros _. apply ensures_ret. intros w. exact I.
Qed.

Lemma size_prompt_is_positive :
  ensures size_prompt (fun vector_size _ => (0 < vector_size)%Z).
Proof.
  unfold size_prompt. apply ensures_while_true. intros _.
  unfold size_iteration. apply ensures_try_except.
  - apply ensures_bind. intro line. cbv zeta.
    apply ensures_bind. intro vector_size.
    destruct (vector_size <=? 0)%Z eqn:Epos.
    + apply ensures_bind. intros _. apply ensures_ret. intros w. exact I.
    + apply Z.leb_gt in Epos.
      destruct (65536 <? vector_size)%Z.
      * apply ensures_bind. intros _. apply ensures_bind. intro confirm.
        destruct (negb (answered_yes confirm)); apply ensures_ret;
          intros w; simpl; auto.
      * apply ensures_ret. intros w. exact Epos.
  - intros e h H. destruct e as [| |[]]; try discriminate H. injection H as <-.
    apply ensures_bind. intros _. apply ensures_ret. intros w. exact I.
Qed.

(** A name leaves the name loop only if it is not blank and the listing
    fetched for it, when there is one, does not hold it. *)
Lemma name_prompt_validated (self : manager) :
  ensures (name_prompt self)
    (fun entered w' =>
       entered <> "" /\
       exists w1 fetched,
         get_collections self w1 = (Ret fetched, w') /\
         forall listing, fetched = Some listing -> ~ In entered (map name listing)).
Proof.
  unfold name_prompt. apply ensures_while_true. intros _ w c w' E.
  unfold name_iteration in E. rewrite bind_run in E.
  destruct (input AskName w) as [[line|e|] w1]; try discriminate E.
  cbv zeta in E.
  destruct (String.eqb (PyStr.strip line) "") eqn:Eblank.
  - rewrite bind_run in E. simpl in E. injection E as <- <-. exact I.
  - rewrite bind_run in E.
    destruct (get_collections self w1) as [[fetched|e|] w2] eqn:Eg;
      try discriminate E.
    destruct (match fetched with Some (col :: cols) => _ | _ => false end) eqn:Ed.
    + rewrite bind_run in E. simpl in E. injection E as <- <-. exact I.
    + injection E as <- <-. simpl. split.
      * apply String.eqb_neq, Eblank.
      * exists w1, fetched. split; [exact Eg |].
        intros listing -> Hin. destruct listing as [|col cols]; [contradiction |].
        apply in_map_iff in Hin. destruct Hin as (c & Hc & Hin).
        assert (Hex : existsb (fun col => String.eqb (name col) (PyStr.strip line))
                        (col :: cols) = true).
        { apply existsb_exists. exists c. split; [assumption |].
          apply String.eqb_eq, Hc. }
        rewrite Hex in Ed. discriminate Ed.
Qed.

(** ** What the prompts return *)

(** X2. Whenever the main menu returns, its answer is one of the five
    choices; and an interrupt at the menu prompt is answered as choice 5,
    the quit. *)
Theorem main_menu_choice :
  ensures show_main_menu (fun choice _ => In choice menu_choices) /\
  (forall rest sv tr,
      show_main_menu {| stdin := CtrlC :: rest; service := sv; trace := tr |} =
      (Ret "5",
       {| stdin := rest; service := sv;
          trace := tr ++ [Printed Menu; Prompted AskMenu; Printed Leaving] |})).
Proof.
  split.
  - unfold show_main_menu. apply ensures_bind. intros _.
    apply ensures_while_true. intros _.
    apply ensures_try_except.
    + apply ensures_bind. intro line. cbv zeta.
      destruct (PyStr.mem (PyStr.strip line) ["1"; "2"; "3"; "4"; "5"]) eqn:E.
      * apply ensures_ret. intros w. unfold menu_choices. apply mem_In, E.
      * apply ensures_bind. intros _. apply ensures_ret. intros w. exact I.
    + intros e h H. destruct e; try discriminate H. injection H as <-.
      apply ensures_bind. intros _. apply ensures_ret. intros w. simpl. tauto.
  - intros rest sv tr. unfold show_main_menu, while_true. rewrite bind_run.
    simpl. rewrite bind_run. unfold try_except. rewrite bind_run. simpl.
    unfold record. simpl. rewrite <- !app_assoc. reflexivity.
Qed.

(** X3. Whenever the distance prompt returns, the metric is Cosine,
    Euclidean or Dot; an empty answer gives Cosine, and an answer (a line of
    ASCII text, where the blanks of the model are Python's) that is not
    blank and not 1, 2 or 3 is refused and asked again on the rest of the
    input. *)
Theorem distance_prompt_metric :
  ensures distance_prompt (fun metric _ => In metric metrics) /\
  (forall line rest sv tr,
      PyStr.strip line = "" ->
      distance_prompt {| stdin := Line line :: rest; service := sv; trace := tr |} =
      (Ret "Cosine",
       {| stdin := rest; service := sv; trace := tr ++ [Prompted AskDistance] |})) /\
  (forall line rest sv tr,
      PyStr.isascii line = true ->
      PyStr.strip line <> "" ->
      distance_options (PyStr.strip line) = None ->
      distance_prompt {| stdin := Line line :: rest; service := sv; trace := tr |} =
      distance_prompt
        {| stdin := rest; service := sv;
           trace := tr ++ [Prompted AskDistance; Printed DistanceInvalid] |}).
Proof.
  assert (Hbody : forall l : unit,
             consumes
               (line <- input AskDistance ;;
                let choice := PyStr.strip line in
                let choice := if String.eqb choice "" then "1" else choice in
                match distance_options choice with
                | Some metric => ret (@Break unit string metric)
                | None => print DistanceInvalid ;; ret (Continue tt)
                end)) by (intro; tame_tac).
  split; [| split].
  - exact distance_prompt_in_metrics.
  - intros line rest sv tr Hblank. unfold distance_prompt.
    rewrite while_true_unfold by exact Hbody.
    rewrite bind_run. simpl. rewrite Hblank. reflexivity.
  - intros line rest sv tr _ Hnonblank Hnone. unfold distance_prompt at 1.
    rewrite while_true_unfold by exact Hbody.
    rewrite bind_run. simpl.
    apply String.eqb_neq in Hnonblank. rewrite Hnonblank, Hnone.
    rewrite bind_run. simpl. unfold record. simpl. rewrite <- app_assoc.
    reflexivity.
Qed.

(** An answer of 7 is refused, then 2 gives Euclidean. *)
Lemma distance_prompt_metric_witness :
  distance_prompt {| stdin := [Line "7"; Line "2"]; service := []; trace := [] |} =
  distance_prompt
    {| stdin := [Line "2"]; service := [];
       trace := [] ++ [Prompted AskDistance; Printed DistanceInvalid] |}.
Proof.
  apply (proj2 (proj2 distance_prompt_metric) "7" [Line "2"] [] []).
  - reflexivity.
  - discriminate.
  - reflexivity.
Defined.

(** X4. Whenever the vector-size prompt returns, the size is positive; and
    an answer (a line of ASCII text, where the blanks and digits of the model
    are Python's) that is not blank and that [int] does not read is refused
    and asked again on the rest of the input. *)
Theorem size_prompt_positive :
  ensures size_prompt (fun vector_size _ => (0 < vector_size)%Z) /\
  (forall line rest sv tr,
      PyStr.isascii line = true ->
      PyStr.strip line <> "" ->
      PyStr.int (PyStr.strip line) = None ->
      size_prompt {| stdin := Line line :: rest; service := sv; trace := tr |} =
      size_prompt
        {| stdin := rest; service := sv;
           trace := tr ++ [Prompted AskVectorSize; Printed InvalidNumber] |}).
Proof.
  split.
  - exact size_prompt_is_positive.
  - intros line rest sv tr _ Hnonblank Hnone. unfold size_prompt at 1.
    rewrite while_true_unfold by (intro; apply consumes_size_iteration).
    unfold size_iteration, try_except, int_or_raise. rewrite bind_run. simpl.
    apply String.eqb_neq in Hnonblank. rewrite Hnonblank, Hnone.
    rewrite bind_run. simpl. unfold record. simpl. rewrite <- app_assoc.
    reflexivity.
Qed.

(** The answer [1.5] is not an integer: the prompt comes again. *)
Lemma size_prompt_positive_witness :
  size_prompt {| stdin := [Line "1.5"; Line "768"]; service := []; trace := [] |} =
  size_prompt
    {| stdin := [Line "768"]; service := [];
       trace := [] ++ [Prompted AskVectorSize; Printed InvalidNumber] |}.
Proof.
  apply (proj2 size_prompt_positive "1.5" [Line "768"] [] []).
  - reflexivity.
  - discriminate.
  - reflexivity.
Defined.

(** A loop that returns does so from a round it came to by rounds that
    all continued. *)
Lemma while_fuel_rounds {L A} (body : L -> M (step L A)) (fuel : nat)
  (l : L) (w : world) (a : A) (w' : world) :
  while_fuel fuel body l w = (Ret a, w') ->
  exists l0 w0, rounds body l w l0 w0 /\ body l0 w0 = (Ret (Break a), w').
Proof.
  revert l w. induction fuel as [|n IH]; intros l w E; [discriminate E |].
  simpl in E. rewrite bind_run in E.
  destruct (body l w) as [[[l1|b]|e|] w1] eqn:Eb; try discriminate E.
  - destruct (IH l1 w1 E) as (l0 & w0 & Hrounds & Hlast).
    exists l0, w0. split; [exact (rounds_next body _ _ _ _ _ _ Eb Hrounds) | exact Hlast].
  - injection E as <- <-. exists l, w. split; [apply rounds_here | exact Eb].
Qed.

(** The round of the name loop that accepts a name: the name is the
    stripped line, it is not blank, and the listing fetched on that line,
    when there is one, does not hold it. *)
Lemma name_iteration_accepts (self : manager) (w : world)
  (entered : string) (w' : world) :
  name_iteration self w = (Ret (Break entered), w') ->
  entered <> "" /\
  exists line rest fetched,
    stdin w = Line line :: rest /\ entered = PyStr.strip line /\
    get_collections self
      {| stdin := rest; service := service w;
         trace := trace w ++ [Prompted AskName] |} = (Ret fetched, w') /\
    forall listing, fetched = Some listing -> ~ In entered (map name listing).
Proof.
  destruct w as [inp sv tr]. destruct inp as [|[line| |] rest];
    try (intro E; discriminate E).
  rewrite name_iteration_run. cbv zeta.
  destruct (String.eqb (PyStr.strip line) "") eqn:Eblank; [intro E; discriminate E |].
  destruct (get_collections self _) as [[fetched|e|] w2] eqn:Eg;
    try (intro E; discriminate E).
  destruct (match fetched with Some (col :: cols) => _ | _ => false end) eqn:Ed;
    intro E; [discriminate E |].
  injection E as <- <-. split; [apply String.eqb_neq, Eblank |].
  exists line, rest, fetched. cbn [stdin service trace].
  split; [reflexivity |]. split; [reflexivity |]. split; [exact Eg |].
  intros listing -> Hin. destruct listing as [|col cols]; [contradiction |].
  rewrite (listed_name_found _ _ Hin) in Ed. discriminate Ed.
Qed.

(** X5. On ASCII input, a name that the create dialogue accepts was
    validated in the round that accepted it: the loop came to that round by
    rounds that refused a name, the accepted name is the stripped line of
    that round and is not blank, and the list request sent on that line,
    answered by the reply then pending, gave a result that, when there is
    one, does not hold the name. *)
Theorem accepted_name_was_validated (self : manager)
  (w : world) (entered : string) (w' : world) :
  ascii_lines (stdin w) ->
  name_prompt self w = (Ret entered, w') ->
  entered <> "" /\
  exists w0 line rest fetched,
    rounds (fun _ : unit => name_iteration self) tt w tt w0 /\
    stdin w0 = Line line :: rest /\ entered = PyStr.strip line /\
    get_collections self
      {| stdin := rest; service := service w0;
         trace := trace w0 ++ [Prompted AskName] |} = (Ret fetched, w') /\
    fetched = listing_of (reply_at (service w0) 0) /\
    forall listing, fetched = Some listing -> ~ In entered (map name listing).
Proof.
  intros _ E. unfold name_prompt, while_true in E.
  destruct (while_fuel_rounds _ _ _ _ _ _ E) as ([] & w0 & Hrounds & Hlast).
  destruct (name_iteration_accepts self w0 entered w' Hlast)
    as (Hnonblank & line & rest & fetched & Hin & Hname & Hfetch & Hnew).
  split; [exact Hnonblank |].
  exists w0, line, rest, fetched. repeat (split; [assumption |]).
  split; [| exact Hnew].
  destruct (get_collections_reply self rest (service w0)
              (trace w0 ++ [Prompted AskName])) as (notes & Hreply & _).
  rewrite Hreply in Hfetch. now injection Hfetch as <- _.
Qed.

(** The name [docs] is refused, [docs_v2] passes: the second reply does
    not list it. *)
Lemma accepted_name_was_validated_witness :
  "docs_v2" <> "" /\
  exists w0 line rest fetched,
    rounds (fun _ : unit => name_iteration sample_manager) tt
      {| stdin := [Line "docs"; Line "docs_v2"];
         service := [listing_reply [entry "docs"]; listing_reply [entry "docs"]];
         trace := [] |} tt w0 /\
    stdin w0 = Line line :: rest /\ "docs_v2" = PyStr.strip line /\
    get_collections sample_manager
      {| stdin := rest; service := service w0;
         trace := trace w0 ++ [Prompted AskName] |} =
    (Ret fetched,
     {| stdin := []; service := [];
        trace := [Prompted AskName; Requested (list_request sample_manager);
                  Printed (NameExists "docs"); Prompted AskName;
                  Requested (list_request sample_manager)] |}) /\
    fetched = listing_of (reply_at (service w0) 0) /\
    forall listing, fetched = Some listing -> ~ In "docs_v2" (map name listing).
Proof.
  apply (accepted_name_was_validated sample_manager
           {| stdin := [Line "docs"; Line "docs_v2"];
              service := [listing_reply [entry "docs"]; listing_reply [entry "docs"]];
              trace := [] |}).
  - intros line [E | [E | []]]; injection E as <-; reflexivity.
  - reflexivity.
Defined.

(** X6. Whenever the create dialogue returns a configuration, the name is
    not blank, the vector size is positive and the distance is one of
    Cosine, Euclidean and Dot. *)
Theorem collection_config_well_formed (self : manager)
  (w : world) (entered : string) (config : vectors_config) (w' : world) :
  get_collection_config self w = (Ret (Some (entered, config)), w') ->
  entered <> "" /\ (0 < size config)%Z /\ In (distance config) metrics.
Proof.
  revert w w'.
  assert (H : ensures (get_collection_config self)
                (fun r _ => forall nm cfg, r = Some (nm, cfg) ->
                   nm <> "" /\ (0 < size cfg)%Z /\ In (distance cfg) metrics)).
  { unfold get_collection_config. apply ensures_bind. intros _.
    apply ensures_try_except.
    - apply (ensures_seq _ _ (fun nm => nm <> "")).
      + intros w nm w' E. exact (proj1 (name_prompt_validated self w nm w' E)).
      + intros nm Hnm. apply ensures_bind. intros _.
        apply (ensures_seq _ _ (fun n => (0 < n)%Z)); [exact size_prompt_is_positive |].
        intros n Hn. apply ensures_bind. intros _.
        apply (ensures_seq _ _ (fun m => In m metrics));
          [exact distance_prompt_in_metrics |].
        intros m Hm. cbv zeta. apply ensures_bind. intros _.
        apply ensures_bind. intro confirm.
        destruct (answered_yes confirm).
        * apply ensures_ret. intros w nm' cfg E. injection E as <- <-.
          simpl. auto.
        * apply ensures_bind. intros _. apply ensures_ret.
          intros w nm' cfg E. discriminate E.
    - intros e h E. destruct e; try discriminate E. injection E as <-.
      apply ensures_bind. intros _. apply ensures_ret.
      intros w nm' cfg E. discriminate E. }
  intros w w' E. exact (H w _ w' E entered config eq_refl).
Qed.

(** The dialogue for [docs_v1], 768 dimensions, Euclidean. *)
Lemma collection_config_well_formed_witness :
  "docs_v1" <> "" /\ (0 < 768)%Z /\ In "Euclidean" metrics.
Proof.
  exact (collection_config_well_formed sample_manager
           {| stdin := [Line "docs_v1"; Line "768"; Line "2"; Line "y"];
              service := [listing_reply []]; trace := [] |}
           "docs_v1" {| size := 768; distance := "Euclidean" |}
           {| stdin := []; service := [];
              trace := [Printed ConfigHeader; Prompted AskName;
                        Requested (list_request sample_manager);
                        Printed SizeHints; Prompted AskVectorSize;
                        Printed DistanceMenu; Prompted AskDistance;
                        Printed (Summary "docs_v1" 768 "Euclidean");
                        Prompted AskCreate] |}
           eq_refl).
Defined.

(** ** What the selection parser returns *)

Lemma select_number_keeps_listed (collections : list collection)
  (token : string) (selected : list string) :
  incl selected (map name collections) ->
  ensures (select_number collections token selected)
    (fun c _ => match c with
                | Continue selected' => incl selected' (map name collections)
                | Break early => early = None
                end).
Proof.
  intros Hsel. unfold select_number, int_or_raise. apply ensures_try_except.
  - destruct (PyStr.int token) as [num|]; [| intros w c w' E; discriminate E].
    intros w c w' E. rewrite bind_run in E. simpl in E.
    destruct ((1 <=? num)%Z && (num <=? Z.of_nat (length collections))%Z).
    + destruct (nth_error collections (Z.to_nat (num - 1))) as [col|] eqn:En;
        [| discriminate E].
      destruct (PyStr.mem (name col) selected); injection E as <- <-;
        [exact Hsel |].
      apply incl_app; [exact Hsel |].
      intros x [<- | []]. apply in_map. exact (nth_error_In _ _ En).
    + rewrite bind_run in E. simpl in E. injection E as <- <-. reflexivity.
  - intros e h H. destruct e as [| |[]]; try discriminate H. injection H as <-.
    apply ensures_bind. intros _. apply ensures_ret. reflexivity.
Qed.

Lemma selection_is_listed (collections : list collection) (action : string) :
  ensures (get_user_selection collections action)
    (fun r _ => forall names, r = Some names ->
       incl names (map name collections) /\ (collections <> [] -> names <> [])).
Proof.
  unfold get_user_selection. apply ensures_bind. intros _.
  apply ensures_while_true. intros _. unfold selection_iteration.
  apply ensures_try_except.
  - apply ensures_bind. intro line. cbv zeta.
    destruct (String.eqb (PyStr.strip line) "").
    { apply ensures_bind. intros _. apply ensures_ret. intros w. exact I. }
    destruct (PyStr.mem _ ["q"; "quit"; "exit"]).
    { apply ensures_ret. intros w names E. discriminate E. }
    destruct (String.eqb action "borrar" && _).
    { apply ensures_ret. intros w names E. injection E as <-. split.
      - apply incl_refl.
      - intros Hne Hnil. apply map_eq_nil in Hnil. contradiction. }
    intros w c w' E. rewrite bind_run in E.
    destruct (for_each_until _ _ _ w) as [[picked|e|] w1] eqn:Ef;
      try discriminate E.
    pose proof (ensures_for_each_until (select_number collections)
                  (fun l => incl l (map name collections))
                  (fun early _ => early = None)
                  (select_number_keeps_listed collections)
                  _ [] (incl_nil_l _) w picked w1 Ef) as Hpicked.
    destruct picked as [[|x l]|early]; simpl in Hpicked.
    + rewrite bind_run in E. simpl in E. injection E as <- <-. exact I.
    + injection E as <- <-. intros names E. injection E as <-.
      split; [exact Hpicked | discriminate].
    + injection E as <- <-. subst early. intros names E. discriminate E.
  - intros e h H. destruct e; try discriminate H. injection H as <-.
    apply ensures_bind. intros _. apply ensures_ret.
    intros w names E. discriminate E.
Qed.

(** X7. Whatever the user types, the names the selection parser returns
    are names of the listing it was given, and for a listing that is not
    empty the selection it returns is never empty. *)
Theorem selection_within_listing
  (collections : list collection) (action : string)
  (w : world) (names : list string) (w' : world) :
  get_user_selection collections action w = (Ret (Some names), w') ->
  incl names (map name collections) /\ (collections <> [] -> names <> []).
Proof.
  intro E. exact (selection_is_listed collections action w _ w' E names eq_refl).
Qed.

(** The selection [2, 2] of a listing of two. *)
Lemma selection_within_listing_witness :
  incl ["notes"] (map name [entry "docs"; entry "notes"]) /\
  ([entry "docs"; entry "notes"] <> [] -> ["notes"] <> []).
Proof.
  exact (selection_within_listing [entry "docs"; entry "notes"] "ver detalles"
           {| stdin := [Line "2, 2"]; service := []; trace := [] |} ["notes"]
           {| stdin := []; service := [];
              trace := [Printed (SelectionHelp "ver detalles");
                        Prompted (AskSelection "ver detalles")] |}
           eq_refl).
Defined.

Lemma keyword_not_blank (selection : string) (words : list string) :
  PyStr.mem (PyStr.lower selection) words = true ->
  PyStr.mem "" words = false ->
  String.eqb selection "" = false.
Proof.
  intros H Hno. destruct (String.eqb_spec selection "") as [-> | _]; [| reflexivity].
  change (PyStr.lower "") with "" in H. rewrite H in Hno. discriminate Hno.
Qed.

(** X8. At the selection prompt, whatever its case and the blanks around
    it: [q], [quit] or [exit] returns no selection in every mode; [all], [*]
    or [todas] returns every name of the listing in delete mode, and in any
    other mode is refused like any field that is not a number. *)
Theorem selection_keywords
  (collections : list collection) (action line : string)
  (rest : list console_event) (sv : list http_reply) (tr : list event) :
  let w := {| stdin := Line line :: rest; service := sv; trace := tr |} in
  let asked :=
    {| stdin := rest; service := sv;
       trace := tr ++ [Printed (SelectionHelp action);
                       Prompted (AskSelection action)] |} in
  (PyStr.mem (PyStr.lower (PyStr.strip line)) ["q"; "quit"; "exit"] = true ->
   get_user_selection collections action w = (Ret None, asked)) /\
  (PyStr.mem (PyStr.lower (PyStr.strip line)) ["all"; "*"; "todas"] = true ->
   (action = "borrar" ->
    get_user_selection collections action w =
    (Ret (Some (map name collections)), asked)) /\
   (action <> "borrar" ->
    exists note,
      get_user_selection collections action w =
      (Ret None, record (Printed note) asked))).
Proof.
  cbv zeta. split.
  - intro Hquit.
    pose proof (keyword_not_blank _ _ Hquit eq_refl) as Hblank.
    unfold get_user_selection, while_true. rewrite bind_run. simpl.
    rewrite bind_run. unfold selection_iteration, try_except. rewrite bind_run.
    simpl. rewrite Hblank, Hquit. simpl. rewrite <- app_assoc. reflexivity.
  - intro Hall.
    pose proof (keyword_not_blank _ _ Hall eq_refl) as Hblank.
    assert (Hnum : numeric_fields (PyStr.strip line) = false)
      by (apply keywords_not_numeric; rewrite Hall; apply orb_true_r).
    assert (Hquit : PyStr.mem (PyStr.lower (PyStr.strip line)) ["q"; "quit"; "exit"]
                    = false).
    { destruct (PyStr.mem _ ["q"; "quit"; "exit"]) eqn:E; [| reflexivity].
      apply mem_In in E. apply mem_In in Hall.
      destruct E as [E | [E | [E | []]]]; rewrite <- E in Hall;
        destruct Hall as [H | [H | [H | []]]]; discriminate H. }
    split.
    + intros ->.
      unfold get_user_selection, while_true. rewrite bind_run. simpl.
      rewrite bind_run. unfold selection_iteration, try_except. rewrite bind_run.
      simpl. rewrite Hblank, Hquit, Hall.
      change (String.eqb "borrar" "borrar") with true. simpl.
      rewrite <- app_assoc. reflexivity.
    + intro Hmode. apply String.eqb_neq in Hmode.
      assert (Hinvalid : forallb (valid_index collections) (tokens line) = false).
      { destruct (forallb _ _) eqn:E; [| reflexivity].
        rewrite (valid_fields_numeric collections line E) in Hnum.
        discriminate Hnum. }
      unfold get_user_selection, while_true. rewrite bind_run. simpl.
      rewrite bind_run. unfold selection_iteration, try_except. rewrite bind_run.
      simpl. rewrite Hblank, Hquit, Hmode. cbn [andb]. rewrite bind_run.
      fold (tokens line).
      match goal with
      | |- context [for_each_until (tokens line) _ [] ?w] =>
          destruct (select_some_invalid collections (tokens line) [] w Hinvalid)
            as [note ->]
      end.
      exists note. simpl. unfold record. simpl. rewrite <- !app_assoc. reflexivity.
Qed.

(** [ALL] typed in the detail view is refused. *)
Lemma selection_keywords_witness :
  exists note,
    get_user_selection [entry "docs"] "ver detalles"
      {| stdin := [Line " ALL "]; service := []; trace := [] |} =
    (Ret None,
     record (Printed note)
       {| stdin := []; service := [];
          trace := [] ++ [Printed (SelectionHelp "ver detalles");
                          Prompted (AskSelection "ver detalles")] |}).
Proof.
  refine (proj2 (proj2 (selection_keywords [entry "docs"] "ver detalles" " ALL "
                          [] [] []) eq_refl) _).
  discriminate.
Defined.

(** ** The remote calls, reply by reply *)

Ltac settle_trace :=
  unfold print, emit, record, ret, bind, except_Exception; simpl;
  rewrite <- ?app_assoc; simpl.

Section Replies.

Variable self : manager.

(** X9. [get_collections] never raises and reads no input: it sends one
    list request.  When the request fails, the status is not 200, the body
    is no JSON object, its status member is not [ok] or its result is no
    object, it returns nothing after printing exactly one error line.
    Otherwise it prints nothing and returns the [collections] member of the
    result: the list it holds, or the empty listing when the result or the
    member is absent. *)
Theorem get_collections_outcome
  (inp : list console_event) (sv : list http_reply) (tr : list event) :
  let reply := reply_at sv 0 in
  (exists notes,
      get_collections self {| stdin := inp; service := sv; trace := tr |} =
      (Ret (listing_of reply),
       {| stdin := inp; service := tl sv;
          trace := tr ++ Requested (list_request self) :: map Printed notes |}) /\
      length notes = if faulty reply then 1 else 0) /\
  (faulty reply = true -> listing_of reply = None) /\
  (forall listing,
      listing_of reply = Some listing ->
      faulty reply = false /\
      exists data, reply = Response 200 (Some data) /\ body_status data = Some "ok") /\
  (forall data,
      reply = Response 200 (Some data) -> body_status data = Some "ok" ->
      match body_result data with
      | None | Some ResultEmptyObject | Some (ResultInfo _) =>
          faulty reply = false /\ listing_of reply = Some []
      | Some (ResultListing collections) =>
          faulty reply = false /\ listing_of reply = Some collections
      | Some ResultTrue | Some ResultFalsy | Some ResultScalar =>
          faulty reply = true
      end).
Proof.
  cbv zeta. split; [apply get_collections_reply |].
  assert (Hfaulty : faulty (reply_at sv 0) = true -> listing_of (reply_at sv 0) = None).
  { unfold faulty, listing_of.
    destruct (reply_at sv 0) as [kind|code [data|]]; try reflexivity.
    destruct (code =? 200)%Z; [| reflexivity].
    destruct (status_ok data); [| reflexivity]. simpl.
    destruct (body_result data) as [[]|]; intro H; try discriminate H; reflexivity. }
  split; [exact Hfaulty | split].
  - intros listing H. split.
    + destruct (faulty (reply_at sv 0)); [| reflexivity].
      rewrite (Hfaulty eq_refl) in H. discriminate H.
    + unfold listing_of in H.
      destruct (reply_at sv 0) as [kind|code [data|]]; try discriminate H.
      destruct (code =? 200)%Z eqn:Ec; [| discriminate H].
      destruct (status_ok data) eqn:Es; [| discriminate H].
      apply Z.eqb_eq in Ec. subst code. exists data. split; [reflexivity |].
      unfold status_ok in Es.
      destruct (body_status data) as [st|]; [| discriminate Es].
      apply String.eqb_eq in Es. now subst st.
  - intros data -> Hok. unfold faulty, listing_of, status_ok. rewrite Hok.
    destruct (body_result data) as [[]|]; repeat split.
Qed.

(** One detail call: one request, one reply consumed, no message. *)
Lemma get_collection_info_reply (collection_name : string)
  (inp : list console_event) (sv : list http_reply) (tr : list event) :
  get_collection_info self collection_name
    {| stdin := inp; service := sv; trace := tr |} =
  (Ret (info_of (reply_at sv 0)),
   {| stdin := inp; service := tl sv;
      trace := tr ++ [Requested (info_request self collection_name)] |}).
Proof.
  unfold get_collection_info, try_except, send, json_of. rewrite bind_run. simpl.
  destruct sv as [|[kind|code [data|]] sv']; simpl; try reflexivity.
  - destruct (code =? 200)%Z; simpl; [| reflexivity].
    rewrite bind_run. simpl. destruct (status_ok data); reflexivity.
  - destruct (code =? 200)%Z; reflexivity.
Qed.

(** X10. [get_collection_info] never raises, never prints and reads no
    input: it sends one detail request for the name and returns the result
    member of a 200 reply with status [ok], and nothing for any other
    reply, a failed request included. *)
Theorem get_collection_info_outcome (collection_name : string)
  (inp : list console_event) (sv : list http_reply) (tr : list event) :
  get_collection_info self collection_name
    {| stdin := inp; service := sv; trace := tr |} =
  (Ret (info_of (reply_at sv 0)),
   {| stdin := inp; service := tl sv;
      trace := tr ++ [Requested (info_request self collection_name)] |}) /\
  (forall kind, info_of (Fails kind) = None) /\
  (forall code data, code <> 200%Z -> info_of (Response code data) = None).
Proof.
  split; [apply get_collection_info_reply | split].
  - reflexivity.
  - intros code [data|] Hcode; [| reflexivity]. simpl.
    apply Z.eqb_neq in Hcode. now rewrite Hcode.
Qed.

(** One create call: one PUT, one reply consumed, one message. *)
Lemma create_collection_reply (collection_name : string) (config : vectors_config)
  (inp : list console_event) (sv : list http_reply) (tr : list event) :
  exists notes,
    create_collection self collection_name config
      {| stdin := inp; service := sv; trace := tr |} =
    (Ret (accepts_create (reply_at sv 0)),
     {| stdin := inp; service := tl sv;
        trace := tr ++ Printed (Creating collection_name)
                    :: Requested (create_request self collection_name config)
                    :: map Printed notes |}) /\
    length notes = 1.
Proof.
  unfold create_collection, try_except, send, json_of, print, emit.
  rewrite !bind_run. simpl.
  destruct sv as [|[kind|code [data|]] sv']; simpl.
  - eexists [_]. settle_trace. split; reflexivity.
  - eexists [_]. settle_trace. split; reflexivity.
  - destruct ((code =? 200)%Z || (code =? 201)%Z); simpl.
    + rewrite bind_run. simpl. destruct (result_is_true data); simpl;
        eexists [_]; settle_trace; split; reflexivity.
    + eexists [_]. settle_trace. split; reflexivity.
  - destruct ((code =? 200)%Z || (code =? 201)%Z); simpl;
      eexists [_]; settle_trace; split; reflexivity.
Qed.

(** X11. [create_collection] never raises and reads no input: it sends one
    PUT for the name, carrying the configuration, and returns whether the
    reply is a 200 or a 201 whose result is true.  A 201 with a true result
    is a success for a create and a failure for a delete. *)
Theorem create_collection_outcome (collection_name : string) (config : vectors_config)
  (inp : list console_event) (sv : list http_reply) (tr : list event) :
  (exists notes,
      create_collection self collection_name config
        {| stdin := inp; service := sv; trace := tr |} =
      (Ret (accepts_create (reply_at sv 0)),
       {| stdin := inp; service := tl sv;
          trace := tr ++ Printed (Creating collection_name)
                      :: Requested (create_request self collection_name config)
                      :: map Printed notes |}) /\
      length notes = 1) /\
  json_body (create_request self collection_name config) = Some config /\
  (forall data,
      result_is_true data = true ->
      accepts_create (Response 201 (Some data)) = true /\
      accepts_delete (Response 201 (Some data)) = false).
Proof.
  split; [apply create_collection_reply | split].
  - reflexivity.
  - intros data H. simpl. rewrite H. split; reflexivity.
Qed.

(** X12. [test_connection] never raises and reads no input: it sends the
    ping and returns true exactly when the first reply is a 200, whatever its
    body. *)
Theorem test_connection_outcome
  (inp : list console_event) (sv : list http_reply) (tr : list event) :
  exists reachable notes,
    test_connection self {| stdin := inp; service := sv; trace := tr |} =
    (Ret reachable,
     {| stdin := inp; service := tl sv;
        trace := tr ++ Printed Probing :: Requested (ping_request self)
                    :: map Printed notes |}) /\
    (reachable = true <-> exists data sv', sv = Response 200 data :: sv').
Proof.
  unfold test_connection, try_except, send, print, emit. rewrite !bind_run. simpl.
  destruct sv as [|[kind|code data] sv']; simpl.
  - exists false. eexists [_; _]. settle_trace.
    split; [reflexivity |]. split; [discriminate | intros (d & l & E); discriminate E].
  - exists false.
    destruct kind;
      first [ eexists [_; _]; settle_trace;
              split; [reflexivity |]
            | eexists [_]; settle_trace;
              split; [reflexivity |] ];
      (split; [discriminate | intros (d & l & E); discriminate E]).
  - destruct (code =? 200)%Z eqn:Ec; simpl.
    + exists true. eexists [_]. settle_trace.
      split; [reflexivity |]. apply Z.eqb_eq in Ec. subst code.
      split; [intros _; exists data, sv'; reflexivity | reflexivity].
    + exists false. eexists [_]. settle_trace.
      split; [reflexivity |].
      split; [discriminate |].
      intros (d & l & E). injection E as -> _ _. discriminate Ec.
Qed.

End Replies.

(** ** Nothing is written without a yes *)

Lemma requests_of_snoc (evs : list event) (ev : event) :
  requests_of (evs ++ [ev]) =
  requests_of evs ++ match ev with Requested r => [r] | _ => [] end.
Proof.
  unfold requests_of. rewrite flat_map_app. simpl. now rewrite app_nil_r.
Qed.

Lemma only_reads_record (ev : event) (w : world) :
  only_reads (trace w) ->
  (forall r, ev = Requested r -> method r = GET) ->
  only_reads (trace (record ev w)).
Proof.
  intros Hr Hev r. unfold record. simpl. rewrite requests_of_snoc, in_app_iff.
  intros [H | H]; [apply Hr, H |].
  destruct ev; simpl in H; try contradiction.
  destruct H as [<- | []]. now apply Hev.
Qed.

Lemma never_yes_tail (ev : console_event) (rest : list console_event) :
  never_yes (ev :: rest) -> never_yes rest.
Proof. intros H answer Hin. apply H. now right. Qed.

Lemma harmless_ret {A} (a : A) (Q : A -> Prop) : Q a -> harmless (ret a) Q.
Proof.
  intros HQ w Hy Hr. unfold ret. simpl. split; [| split]; try assumption.
  intros a' E. injection E as <-. exact HQ.
Qed.

Lemma harmless_raise {A} (e : exn) (Q : A -> Prop) : harmless (raise e) Q.
Proof.
  intros w Hy Hr. unfold raise. simpl. split; [| split]; try assumption.
  intros a E. discriminate E.
Qed.

Lemma harmless_print (m : message) (Q : unit -> Prop) : Q tt -> harmless (print m) Q.
Proof.
  intros HQ w Hy Hr. unfold print, emit. simpl. split; [| split].
  - exact Hy.
  - apply only_reads_record; [assumption | discriminate].
  - now intros [] _.
Qed.

Lemma harmless_sleep (ms : Z) (Q : unit -> Prop) : Q tt -> harmless (sleep ms) Q.
Proof.
  intros HQ w Hy Hr. unfold sleep, emit. simpl. split; [| split].
  - exact Hy.
  - apply only_reads_record; [assumption | discriminate].
  - now intros [] _.
Qed.

Lemma harmless_input (p : prompt) :
  harmless (input p) (fun answer => answered_yes answer = false).
Proof.
  intros [inp sv tr] Hy Hr. unfold input. cbn [stdin service trace] in *.
  assert (Hr' : only_reads (tr ++ [Prompted p])).
  { apply (only_reads_record (Prompted p) {| stdin := inp; service := sv; trace := tr |});
      [assumption | discriminate]. }
  destruct inp as [|[answer| |] rest]; simpl; (split; [| split]);
    try assumption; try (eapply never_yes_tail; eassumption);
    try (intros a E; discriminate E).
  intros a E. injection E as <-. apply Hy. now left.
Qed.

Lemma harmless_send (r : request) (Q : response -> Prop) :
  method r = GET -> (forall reply, Q reply) -> harmless (send r) Q.
Proof.
  intros Hget HQ [inp sv tr] Hy Hr. unfold send. cbn [stdin service trace] in *.
  assert (Hr' : only_reads (tr ++ [Requested r])).
  { apply (only_reads_record (Requested r)
             {| stdin := inp; service := sv; trace := tr |}); [assumption |].
    intros r' E. injection E as <-. exact Hget. }
  destruct sv as [|[kind|code data] rest]; simpl; (split; [| split]);
    try assumption; intros a E; try discriminate E; apply HQ.
Qed.

Lemma harmless_weaken {A} (m : M A) (Q R : A -> Prop) :
  harmless m Q -> (forall a, Q a -> R a) -> harmless m R.
Proof.
  intros Hm HQR w Hy Hr. destruct (Hm w Hy Hr) as (H1 & H2 & H3).
  split; [| split]; try assumption. intros a E. apply HQR, H3, E.
Qed.

Lemma harmless_bind {A B} (m : M A) (f : A -> M B) (Q : A -> Prop) (R : B -> Prop) :
  harmless m Q -> (forall a, Q a -> harmless (f a) R) -> harmless (bind m f) R.
Proof.
  intros Hm Hf w Hy Hr. rewrite bind_run.
  destruct (Hm w Hy Hr) as (H1 & H2 & H3).
  destruct (m w) as [[a|e|] w1]; simpl in *.
  - apply Hf; auto.
  - split; [| split]; try assumption. intros b E. discriminate E.
  - split; [| split]; try assumption. intros b E. discriminate E.
Qed.

Lemma harmless_try_except {A} (m : M A) (handler : exn -> option (M A))
  (Q : A -> Prop) :
  harmless m Q ->
  (forall e h, handler e = Some h -> harmless h Q) ->
  harmless (try_except m handler) Q.
Proof.
  intros Hm Hh w Hy Hr. unfold try_except.
  destruct (Hm w Hy Hr) as (H1 & H2 & H3).
  destruct (m w) as [[a|e|] w1]; simpl in *.
  - split; [| split]; assumption.
  - destruct (handler e) as [h|] eqn:E.
    + apply (Hh e h E); assumption.
    + split; [| split]; assumption.
  - split; [| split]; assumption.
Qed.

Lemma harmless_while_fuel {L A} (body : L -> M (step L A)) (Q : A -> Prop) :
  (forall l, harmless (body l) (breaks_with Q)) ->
  forall n l, harmless (while_fuel n body l) Q.
Proof.
  intros Hbody n. induction n as [|n IH]; intro l.
  - intros w Hy Hr. simpl. split; [| split]; try assumption.
    intros a E. discriminate E.
  - simpl. apply (harmless_bind _ _ (breaks_with Q)); [apply Hbody |].
    intros [l'|a] Hc; [apply IH | apply harmless_ret, Hc].
Qed.

Lemma harmless_while_true {L A} (body : L -> M (step L A)) (l : L) (Q : A -> Prop) :
  (forall l, harmless (body l) (breaks_with Q)) ->
  harmless (while_true body l) Q.
Proof.
  intros Hbody w. exact (harmless_while_fuel body Q Hbody (S (length (stdin w))) l w).
Qed.

Lemma harmless_for_each {X L} (xs : list X) (body : X -> L -> M L) :
  (forall x l, harmless (body x l) (fun _ => True)) ->
  forall l, harmless (for_each xs body l) (fun _ => True).
Proof.
  intro Hbody. induction xs as [|x rest IH]; intro l; simpl.
  - now apply harmless_ret.
  - apply (harmless_bind _ _ (fun _ => True)); [apply Hbody | intros; apply IH].
Qed.

Lemma harmless_for_each_until {X L A} (xs : list X) (body : X -> L -> M (step L A)) :
  (forall x l, harmless (body x l) (fun _ => True)) ->
  forall l, harmless (for_each_until xs body l) (fun _ => True).
Proof.
  intro Hbody. induction xs as [|x rest IH]; intro l; simpl.
  - now apply harmless_ret.
  - apply (harmless_bind _ _ (fun _ => True)); [apply Hbody |].
    intros [l'|a] _; [apply IH | now apply harmless_ret].
Qed.

Create HintDb harmless.

Ltac harmless_leaf := cbv beta; simpl breaks_with; try exact I; try reflexivity.

Ltac harmless_step :=
  match goal with
  | |- harmless (ret _) _ => apply harmless_ret; harmless_leaf; try congruence
  | |- harmless (raise _) _ => apply harmless_raise
  | |- harmless (sys_exit _) _ => apply harmless_raise
  | |- harmless (print _) _ => apply harmless_print; harmless_leaf
  | |- harmless (sleep _) _ => apply harmless_sleep; harmless_leaf
  | |- harmless (send _) _ => apply harmless_send; [reflexivity | intro; exact I]
  | |- harmless (bind (input _) _) _ =>
      eapply harmless_bind; [apply harmless_input | intros ? ?]
  | |- harmless (bind _ _) _ =>
      first [ eapply harmless_bind;
              [solve [eauto with harmless] | cbv beta; intros ? ?; try subst]
            | apply harmless_bind with (Q := fun _ => True); [| intros ? _] ]
  | |- harmless (try_except _ _) _ =>
      apply harmless_try_except;
      [| let e := fresh "e" in let h := fresh "h" in let H := fresh "H" in
         intros e h H; handler_cases e H]
  | |- harmless (for_each _ _ _) _ => apply harmless_for_each; intros
  | |- harmless (for_each_until _ _ _) _ => apply harmless_for_each_until; intros
  | |- harmless (while_true _ _) _ => apply harmless_while_true; intros
  | |- harmless (if ?b then _ else _) _ => destruct b eqn:?; try congruence
  | |- harmless (match ?x with _ => _ end) _ => destruct x eqn:?
  | |- _ => solve [eauto with harmless]
  end.

Ltac harmless_tac := repeat (cbv beta iota zeta; harmless_step).

Section Safety.

Variable self : manager.

Lemma harmless_json_of r : harmless (json_of r) (fun _ => True).
Proof. unfold json_of. harmless_tac. Qed.

Lemma harmless_collections_of data : harmless (collections_of data) (fun _ => True).
Proof. unfold collections_of. harmless_tac. Qed.

Lemma harmless_int_or_raise s : harmless (int_or_raise s) (fun _ => True).
Proof. unfold int_or_raise. harmless_tac. Qed.

Lemma harmless_info_fields info : harmless (info_fields info) (fun _ => True).
Proof. unfold info_fields. harmless_tac. Qed.
Hint Resolve harmless_json_of harmless_collections_of harmless_int_or_raise
  harmless_info_fields : harmless.

Lemma harmless_test_connection : harmless (test_connection self) (fun _ => True).
Proof. unfold test_connection. harmless_tac. Qed.

Lemma harmless_get_collections : harmless (get_collections self) (fun _ => True).
Proof. unfold get_collections. harmless_tac. Qed.

Lemma harmless_get_collection_info nm :
  harmless (get_collection_info self nm) (fun _ => True).
Proof. unfold get_collection_info. harmless_tac. Qed.

Lemma harmless_display_collections cols :
  harmless (display_collections cols) (fun _ => True).
Proof. unfold display_collections. harmless_tac. Qed.
Hint Resolve harmless_test_connection harmless_get_collections
  harmless_get_collection_info harmless_display_collections : harmless.

Lemma harmless_name_prompt : harmless (name_prompt self) (fun _ => True).
Proof. unfold name_prompt, name_iteration. harmless_tac. Qed.

Lemma harmless_size_prompt : harmless size_prompt (fun _ => True).
Proof. unfold size_prompt, size_iteration. harmless_tac. Qed.

Lemma harmless_distance_prompt : harmless distance_prompt (fun _ => True).
Proof. unfold distance_prompt. harmless_tac. Qed.
Hint Resolve harmless_name_prompt harmless_size_prompt harmless_distance_prompt
  : harmless.

(** Without a yes at its last prompt the create flow returns no
    configuration. *)
Lemma harmless_get_collection_config :
  harmless (get_collection_config self) (fun r => r = None).
Proof. unfold get_collection_config. harmless_tac. Qed.

Lemma harmless_select_number cols tok sel :
  harmless (select_number cols tok sel) (fun _ => True).
Proof. unfold select_number. harmless_tac. Qed.
Hint Resolve harmless_get_collection_config harmless_select_number : harmless.

Lemma harmless_get_user_selection cols action :
  harmless (get_user_selection cols action) (fun _ => True).
Proof. unfold get_user_selection, selection_iteration. harmless_tac. Qed.

(** Without a yes the deletion is not confirmed. *)
Lemma harmless_confirm_deletion names :
  harmless (confirm_deletion names) (fun confirmed => confirmed = false).
Proof. unfold confirm_deletion. harmless_tac. Qed.
Hint Resolve harmless_get_user_selection harmless_confirm_deletion : harmless.

Lemma harmless_show_collection_details cols :
  harmless (show_collection_details self cols) (fun _ => True).
Proof. unfold show_collection_details. harmless_tac. Qed.

Lemma harmless_show_main_menu : harmless show_main_menu (fun _ => True).
Proof. unfold show_main_menu. harmless_tac. Qed.

Lemma harmless_list_branch fetched : harmless (list_branch fetched) (fun _ => True).
Proof. unfold list_branch. harmless_tac. Qed.
Hint Resolve harmless_show_collection_details harmless_show_main_menu
  harmless_list_branch : harmless.

Lemma harmless_create_branch : harmless (create_branch self) (fun _ => True).
Proof. unfold create_branch. harmless_tac. Qed.

Lemma harmless_details_branch fetched :
  harmless (details_branch self fetched) (fun _ => True).
Proof. unfold details_branch. harmless_tac. Qed.

Lemma harmless_delete_branch fetched :
  harmless (delete_branch self fetched) (fun _ => True).
Proof. unfold delete_branch. harmless_tac. Qed.
Hint Resolve harmless_create_branch harmless_details_branch harmless_delete_branch
  : harmless.

Lemma harmless_menu_action choice cols :
  harmless (menu_action self choice cols) (fun _ => True).
Proof. unfold menu_action. harmless_tac. Qed.
Hint Resolve harmless_menu_action : harmless.

Lemma harmless_menu_loop : harmless (menu_loop self) (fun _ => True).
Proof. unfold menu_loop, menu_iteration. harmless_tac. Qed.
Hint Resolve harmless_menu_loop : harmless.

Lemma harmless_run : harmless (run self) (fun _ => True).
Proof. unfold run. harmless_tac. Qed.

End Safety.

Lemma harmless_main (env : environ) : harmless (main env) (fun _ => True).
Proof.
  unfold main, init, load_config.
  pose proof harmless_run as Hrun.
  harmless_tac; apply Hrun.
Qed.

(** X13. If every line the user types is ASCII text (where the letters
    and blanks of the model are Python's) and none is a yes ([y], [yes] or
    [si], whatever the case and the blanks around it), the program sends
    nothing but GET requests: no collection is created and none is deleted,
    whatever the menu choices, the answers and the replies of the service. *)
Theorem no_write_without_yes (env : environ) (self : manager) (w : world) :
  ascii_lines (stdin w) ->
  never_yes (stdin w) -> only_reads (trace w) ->
  only_reads (trace (snd (main env w))) /\
  only_reads (trace (snd (run self w))).
Proof.
  intros _ Hy Hr. split.
  - apply (harmless_main env w Hy Hr).
  - apply (harmless_run self w Hy Hr).
Qed.

(** Create and delete are tried and declined: only the ping and the two
    listings go out. *)
Lemma no_write_without_yes_witness :
  only_reads (trace (snd (main sample_environ declining_session))) /\
  only_reads (trace (snd (run sample_manager declining_session))).
Proof.
  apply (no_write_without_yes sample_environ sample_manager declining_session).
  - intros line H. simpl in H.
    repeat (destruct H as [H | H]; [injection H as <-; reflexivity |]).
    contradiction.
  - intros answer H. simpl in H.
    repeat (destruct H as [H | H]; [injection H as <-; reflexivity |]).
    contradiction.
  - intros r [].
Defined.

(** ** The deletion prompt *)

(** X14. The deletion prompt takes nothing but an explicit yes or no:
    every other line (of ASCII text, where the letters and blanks of the
    model are Python's), blank ones included, is answered with a reminder
    and the prompt comes again, and the first yes or no decides.  The prompt
    sends no request. *)
Theorem confirm_deletion_answers (names ignored : list string) (answer : string)
  (rest : list console_event) (sv : list http_reply) (tr : list event) :
  (forall line, In line ignored ->
                PyStr.isascii line = true /\ decides line = false) ->
  decides answer = true ->
  confirm_deletion names
    {| stdin := map Line ignored ++ Line answer :: rest; service := sv; trace := tr |} =
  (Ret (answered_yes answer),
   {| stdin := rest; service := sv;
      trace := tr ++ Printed (DeletionWarning names)
                  :: flat_map (fun _ => [Prompted AskDeletion; Printed AnswerYesOrNo])
                       ignored
                  ++ [Prompted AskDeletion] |}).
Proof.
  intros Hignored Hanswer. unfold confirm_deletion. rewrite bind_run.
  unfold print at 1, emit, record. cbn [stdin service trace].
  match goal with |- context [while_true ?b tt] => set (body := b) end.
  assert (Hbody : forall l, consumes (body l)) by (intro; subst body; cbv beta; tame_tac).
  replace (tr ++ Printed (DeletionWarning names)
              :: flat_map (fun _ => [Prompted AskDeletion; Printed AnswerYesOrNo])
                   ignored ++ [Prompted AskDeletion])
    with ((tr ++ [Printed (DeletionWarning names)])
            ++ flat_map (fun _ => [Prompted AskDeletion; Printed AnswerYesOrNo])
                 ignored ++ [Prompted AskDeletion])
    by (now rewrite <- app_assoc).
  generalize (tr ++ [Printed (DeletionWarning names)]). clear tr.
  induction ignored as [|line ignored IH]; intro tr.
  - rewrite (while_true_unfold body tt _ Hbody). subst body.
    unfold bind, input, record. cbn [stdin service trace map app flat_map].
    unfold decides in Hanswer. rewrite mem_app_keywords in Hanswer.
    unfold answered_yes.
    destruct (PyStr.mem (PyStr.lower (PyStr.strip answer)) yes_words); [reflexivity |].
    simpl in Hanswer. rewrite Hanswer. reflexivity.
  - rewrite (while_true_unfold body tt _ Hbody).
    assert (Hline : decides line = false) by (apply Hignored; now left).
    assert (Hrest : forall l, In l ignored ->
                              PyStr.isascii l = true /\ decides l = false)
      by (intros l Hl; apply Hignored; now right).
    unfold decides in Hline. rewrite mem_app_keywords in Hline.
    apply orb_false_iff in Hline. destruct Hline as [Hyes Hno].
    unfold body at 1.
    unfold bind, input, print, emit, record. cbn [stdin service trace map app flat_map].
    rewrite Hyes, Hno. cbn [ret].
    rewrite (IH Hrest).
    cbn [trace]. rewrite <- !app_assoc. reflexivity.
Qed.

(** Two lines that decide nothing, then a no. *)
Lemma confirm_deletion_answers_witness :
  confirm_deletion ["old"]
    {| stdin := map Line [""; "maybe"] ++ [Line " No "; Line "5"];
       service := []; trace := [] |} =
  (Ret false,
   {| stdin := [Line "5"]; service := [];
      trace := [Printed (DeletionWarning ["old"]);
                Prompted AskDeletion; Printed AnswerYesOrNo;
                Prompted AskDeletion; Printed AnswerYesOrNo;
                Prompted AskDeletion] |}).
Proof.
  apply (confirm_deletion_answers ["old"] [""; "maybe"] " No " [Line "5"] [] []).
  - intros line [<- | [<- | []]]; split; reflexivity.
  - reflexivity.
Defined.

(** ** Building the manager *)

(** X15. A manager is built only from an environment with a non-empty
    host; its port is the configured one or 6333, its base URL is
    [http://host:port].  Requests carry credentials exactly when both the
    user and the password are set and non-empty, and the warning about
    incomplete credentials is printed exactly when they are not. *)
Theorem manager_authentication (env : environ) (w : world)
  (self : manager) (w' : world) :
  init env w = (Ret self, w') ->
  QDRANT_HOST env = Some (host self) /\ host self <> "" /\
  port self = match QDRANT_PORT env with Some p => p | None => "6333" end /\
  base_url self = ("http://" ++ host self ++ ":" ++ port self)%string /\
  ((exists u p, QDRANT_USER env = Some u /\ QDRANT_PASSWORD env = Some p /\
                u <> "" /\ p <> "" /\ auth self = Some (u, p) /\ w' = w) \/
   ((truthy (QDRANT_USER env) = false \/ truthy (QDRANT_PASSWORD env) = false) /\
    auth self = None /\ w' = record (Printed CredentialsIncomplete) w)) /\
  (forall nm config,
      auth_of (ping_request self) = auth self /\
      auth_of (list_request self) = auth self /\
      auth_of (info_request self nm) = auth self /\
      auth_of (create_request self nm config) = auth self /\
      auth_of (delete_request self nm) = auth self).
Proof.
  unfold init, load_config, bind.
  destruct env as [loads h p u pw]. cbn [dotenv_loads QDRANT_HOST QDRANT_PORT
                                           QDRANT_USER QDRANT_PASSWORD].
  destruct loads; [| discriminate].
  destruct h as [[|c r]|]; try discriminate.
  cbn [ret].
  destruct u as [[|cu ru]|], pw as [[|cp rp]|]; simpl; intro H;
    injection H as <- <-; cbn [host port base_url auth];
    (split; [reflexivity |]); (split; [discriminate |]);
    (split; [reflexivity |]); (split; [reflexivity |]);
    (split; [| intros; repeat split]);
    first [ left; eexists _, _; repeat split; discriminate
          | right; split; [auto | split; reflexivity] ].
Qed.

(** Both credentials set: they are sent, and nothing is printed. *)
Lemma manager_authentication_witness :
  exists self,
    init secured_environ {| stdin := []; service := []; trace := [] |} =
    (Ret self, {| stdin := []; service := []; trace := [] |}) /\
    base_url self = "http://qdrant.local:6334" /\
    auth_of (delete_request self "docs") = Some ("admin", "secret").
Proof.
  eexists. split; [reflexivity |].
  destruct (manager_authentication secured_environ
              {| stdin := []; service := []; trace := [] |} _ _ eq_refl)
    as (_ & _ & _ & Hurl & _ & Hreq).
  split; [exact Hurl |].
  destruct (Hreq "docs" default_config) as (_ & _ & _ & _ & Hdelete).
  exact Hdelete.
Defined.

(** ** A failed startup *)

(** Building the manager only prints. *)
Lemma init_prints (env : environ) (w : world) :
  exists notes,
    snd (init env w) =
    {| stdin := stdin w; service := service w;
       trace := trace w ++ map Printed notes |}.
Proof.
  destruct w as [inp sv tr]. unfold init, load_config, bind.
  destruct env as [loads h p u pw].
  cbn [dotenv_loads QDRANT_HOST QDRANT_PORT QDRANT_USER QDRANT_PASSWORD].
  destruct loads; [| exists []; simpl; now rewrite app_nil_r].
  destruct h as [[|c r]|]; try (eexists [_]; reflexivity).
  simpl. destruct (negb (truthy u) || negb (truthy pw)); simpl.
  - eexists [_]. reflexivity.
  - exists []. simpl. now rewrite app_nil_r.
Qed.

(** Without a connection [run] stops at once. *)
Lemma run_unreachable (self : manager)
  (inp : list console_event) (sv : list http_reply) (tr : list event) :
  unreachable sv = true ->
  exists notes,
    run self {| stdin := inp; service := sv; trace := tr |} =
    (Raise (SystemExit 1),
     {| stdin := inp; service := tl sv;
        trace := tr ++ Printed Banner :: Printed Probing
                    :: Requested (ping_request self) :: map Printed notes |}).
Proof.
  intro Hfails. unfold run. rewrite bind_run. unfold print at 1, emit, record.
  cbn [stdin service trace]. rewrite bind_run.
  destruct (test_connection_run self inp sv (tr ++ [Printed Banner])) as [notes ->].
  rewrite Hfails. cbn [negb]. exists (notes ++ [NoConnection]).
  unfold bind, print, emit, sys_exit, raise, record. cbn [stdin service trace].
  rewrite map_app, <- !app_assoc. reflexivity.
Qed.

Lemma prints_no_prompt (notes : list message) (p : prompt) :
  ~ In (Prompted p) (map Printed notes).
Proof.
  intro Hin. apply in_map_iff in Hin. destruct Hin as (m & E & _). discriminate E.
Qed.

(** X16. When startup fails, the process stops with status 1 without asking
    the user anything: no prompt is shown, no input is read, and the only
    request that may have gone out is the connectivity check of the manager
    that was built. *)
Theorem failed_startup_is_silent (env : environ) (w : world) :
  startup_fails env w = true ->
  fst (main env w) = Raise (SystemExit 1) /\
  stdin (snd (main env w)) = stdin w /\
  exists evs,
    trace (snd (main env w)) = trace w ++ evs /\
    (forall p, ~ In (Prompted p) evs) /\
    (requests_of evs = [] \/
     exists self w0, init env w = (Ret self, w0) /\
                     requests_of evs = [ping_request self]).
Proof.
  intro Hfails. split; [rewrite main_outcome, Hfails; reflexivity |].
  unfold main, try_except. rewrite bind_run.
  pose proof (init_run env w) as Hinit.
  destruct (init_prints env w) as [notes Hw0].
  destruct (init env w) as [[self|[|code|kind]|] w0] eqn:E; try contradiction;
    cbn [snd] in Hw0; subst w0.
  - destruct Hinit as (Hloads & Hhost & _).
    unfold startup_fails in Hfails. rewrite Hloads, Hhost in Hfails.
    cbn [negb orb] in Hfails.
    destruct (run_unreachable self (stdin w) (service w)
                (trace w ++ map Printed notes) Hfails) as [notes' ->].
    split; [reflexivity |].
    exists (map Printed notes ++ Printed Banner :: Printed Probing
              :: Requested (ping_request self) :: map Printed notes').
    split; [cbn [snd trace]; now rewrite <- app_assoc |].
    split.
    + intros p Hin. apply in_app_or in Hin.
      destruct Hin as [Hin | [Hin | [Hin | [Hin | Hin]]]]; try discriminate Hin.
      * exact (prints_no_prompt _ _ Hin).
      * exact (prints_no_prompt _ _ Hin).
    + right. eexists self, _. split; [reflexivity |].
      rewrite requests_of_app, requests_of_prints. simpl.
      now rewrite requests_of_prints.
  - split; [reflexivity |]. exists (map Printed notes).
    split; [reflexivity |]. split; [apply prints_no_prompt |].
    left. apply requests_of_prints.
  - destruct Hinit as (_ & -> & _). cbn [except_Exception].
    split; [reflexivity |]. exists (map Printed (notes ++ [Fatal OSError])).
    split; [| split; [apply prints_no_prompt | left; apply requests_of_prints]].
    unfold bind, print, emit, sys_exit, raise, record. cbn [snd trace].
    now rewrite map_app, <- app_assoc.
Qed.

(** The service refuses the connectivity check: the menu is never shown. *)
Lemma failed_startup_is_silent_witness :
  fst (main sample_environ
         {| stdin := [Line "4"; Line "all"; Line "y"];
            service := [Response 503 None]; trace := [] |})
  = Raise (SystemExit 1) /\
  stdin (snd (main sample_environ
                {| stdin := [Line "4"; Line "all"; Line "y"];
                   service := [Response 503 None]; trace := [] |}))
  = [Line "4"; Line "all"; Line "y"].
Proof.
  destruct (failed_startup_is_silent sample_environ
              {| stdin := [Line "4"; Line "all"; Line "y"];
                 service := [Response 503 None]; trace := [] |} eq_refl)
    as (Hexit & Hinput & _).
  split; [exact Hexit | exact Hinput].
Defined.

(** ** What the create and delete flows send *)

Lemma requests_of_cons (ev : event) (evs : list event) :
  requests_of (ev :: evs) =
  match ev with Requested r => [r] | _ => [] end ++ requests_of evs.
Proof. reflexivity. Qed.

Ltac requests_tac :=
  cbn [snd fst trace stdin service record];
  repeat (rewrite requests_of_app || rewrite requests_of_cons
          || rewrite requests_of_prints);
  cbn [app]; rewrite ?app_nil_r, <- ?app_assoc; cbn [app]; try reflexivity.

(** X17. The create flow sends what the dialogue returned: when the user
    confirmed a name and a configuration, one PUT goes out for that name with
    that configuration, followed by one detail request for the same name
    exactly when the create was accepted; when the dialogue returned nothing,
    the flow ends there and sends nothing more. *)
Theorem create_flow_requests (self : manager) (w : world) :
  (forall entered config w1,
      get_collection_config self w = (Ret (Some (entered, config)), w1) ->
      stdin (snd (create_branch self w)) = stdin w1 /\
      requests_of (trace (snd (create_branch self w))) =
      requests_of (trace w1)
        ++ create_request self entered config
        :: (if accepts_create (reply_at (service w1) 0)
            then [info_request self entered] else [])) /\
  (forall w1,
      get_collection_config self w = (Ret None, w1) ->
      create_branch self w = (Ret tt, w1)).
Proof.
  split.
  - intros entered config [inp sv tr] Hconfig.
    assert (H : exists r sv' evs,
               create_branch self w =
               (r, {| stdin := inp; service := sv'; trace := tr ++ evs |}) /\
               requests_of evs =
               create_request self entered config
                 :: (if accepts_create (reply_at sv 0)
                     then [info_request self entered] else [])).
    { unfold create_branch. rewrite bind_run, Hconfig. rewrite bind_run.
      destruct (create_collection_reply self entered config inp sv tr)
        as (notes & -> & _).
      destruct (accepts_create (reply_at sv 0)).
      - rewrite bind_run. unfold print at 1, emit, record. cbn [stdin service trace].
        rewrite bind_run. unfold sleep at 1, emit, record. cbn [stdin service trace].
        rewrite bind_run, get_collection_info_reply.
        destruct (info_of (reply_at (tl sv) 0)) as [[]|];
          unfold info_truthy, info_fields, bind, ret, raise, print, emit, record;
          simpl; rewrite <- ?app_assoc;
          (do 3 eexists; split; [reflexivity | requests_tac]).
      - do 3 eexists. split; [reflexivity | requests_tac]. }
    destruct H as (r & sv' & evs & -> & Hreq). cbn [snd stdin service trace].
    split; [reflexivity |]. now rewrite requests_of_app, Hreq.
  - intros w1 Hconfig. unfold create_branch. rewrite bind_run, Hconfig. reflexivity.
Qed.

(** A name, the defaults and a yes; the service accepts the create. *)
Lemma create_flow_requests_witness :
  requests_of (trace (snd (create_branch sample_manager
    {| stdin := [Line "docs"; Line ""; Line ""; Line "y"];
       service := [listing_reply []; Response 201 (Some {| body_status := Some "ok";
                                                           body_result := Some ResultTrue |})];
       trace := [] |}))) =
  [list_request sample_manager;
   create_request sample_manager "docs" default_config;
   info_request sample_manager "docs"].
Proof.
  exact (proj2 (proj1 (create_flow_requests sample_manager
           {| stdin := [Line "docs"; Line ""; Line ""; Line "y"];
              service := [listing_reply [];
                          Response 201 (Some {| body_status := Some "ok";
                                                body_result := Some ResultTrue |})];
              trace := [] |}) "docs" default_config _ eq_refl)).
Defined.

(** X18. The delete flow deletes what was selected and confirmed: after
    the selection returned names and the confirmation returned, one DELETE
    goes out for each selected name, in the order of the selection, exactly
    when the deletion was confirmed, and none otherwise; when the selection
    returned nothing, the flow ends there. *)
Theorem delete_flow_requests (self : manager) (listing : list collection) (w : world) :
  listing <> [] ->
  (forall names w1 confirmed w2,
      get_user_selection listing "borrar" (record (Printed (Listing listing)) w) =
      (Ret (Some names), w1) ->
      confirm_deletion names w1 = (Ret confirmed, w2) ->
      stdin (snd (delete_branch self (Some listing) w)) = stdin w2 /\
      requests_of (trace (snd (delete_branch self (Some listing) w))) =
      requests_of (trace w2)
        ++ (if confirmed then map (delete_request self) names else [])) /\
  (forall w1,
      get_user_selection listing "borrar" (record (Printed (Listing listing)) w) =
      (Ret None, w1) ->
      delete_branch self (Some listing) w = (Ret tt, w1)).
Proof.
  intro Hlisting. destruct listing as [|col listing]; [contradiction |].
  split.
  - intros names w1 confirmed [inp sv tr] Hselection Hconfirm.
    destruct (selection_is_listed _ _ _ _ _ Hselection names eq_refl) as [_ Hnames].
    destruct names as [|nm names]; [now contradiction Hnames |].
    assert (H : exists r sv' evs,
               delete_branch self (Some (col :: listing)) w =
               (r, {| stdin := inp; service := sv'; trace := tr ++ evs |}) /\
               requests_of evs =
               if confirmed then map (delete_request self) (nm :: names) else []).
    { unfold delete_branch, display_collections. rewrite bind_run.
      unfold print at 1, emit. rewrite bind_run, Hselection.
      rewrite bind_run, Hconfirm.
      destruct confirmed.
      - rewrite bind_run. unfold delete_collections. rewrite bind_run.
        unfold print at 1, emit, record. cbn [stdin service trace].
        destruct (delete_loop_run self (nm :: names) [] [] inp sv
                    (tr ++ [Printed DeleteStart])) as (evs & -> & Hreq).
        unfold display_results, print, emit, record. cbn [stdin service trace].
        rewrite <- !app_assoc. do 3 eexists. split; [reflexivity |].
        rewrite !requests_of_app, Hreq. simpl. now rewrite app_nil_r.
      - unfold print, emit, record. do 3 eexists. split; reflexivity. }
    destruct H as (r & sv' & evs & -> & Hreq). cbn [snd stdin service trace].
    split; [reflexivity |]. now rewrite requests_of_app, Hreq.
  - intros w1 Hselection.
    unfold delete_branch, display_collections. rewrite bind_run.
    unfold print at 1, emit. rewrite bind_run, Hselection. reflexivity.
Qed.

(** Both collections of a listing selected in reverse order and confirmed. *)
Lemma delete_flow_requests_witness :
  requests_of (trace (snd (delete_branch sample_manager
    (Some [entry "docs"; entry "notes"])
    {| stdin := [Line "2,1"; Line "yes"];
       service := [accepted_reply; Response 404 None]; trace := [] |}))) =
  [delete_request sample_manager "notes"; delete_request sample_manager "docs"].
Proof.
  refine (proj2 (proj1 (delete_flow_requests sample_manager
            [entry "docs"; entry "notes"]
            {| stdin := [Line "2,1"; Line "yes"];
               service := [accepted_reply; Response 404 None]; trace := [] |} _)
            ["notes"; "docs"] _ true _ eq_refl eq_refl)).
  discriminate.
Defined.

(** ** Viewing only reads *)

Lemma reads_ret {A} (a : A) : reads (ret a).
Proof. intros w Hr. exact Hr. Qed.

Lemma reads_raise {A} (e : exn) : reads (@raise A e).
Proof. intros w Hr. exact Hr. Qed.

Lemma reads_print (m : message) : reads (print m).
Proof. intros w Hr. apply only_reads_record; [assumption | discriminate]. Qed.

Lemma reads_input (p : prompt) : reads (input p).
Proof.
  intros [inp sv tr] Hr. unfold input. cbn [stdin service trace] in *.
  assert (Hr' : only_reads (tr ++ [Prompted p])).
  { apply (only_reads_record (Prompted p) {| stdin := inp; service := sv; trace := tr |});
      [assumption | discriminate]. }
  destruct inp as [|[answer| |] rest]; exact Hr'.
Qed.

Lemma reads_send (r : request) : method r = GET -> reads (send r).
Proof.
  intros Hget [inp sv tr] Hr. unfold send. cbn [stdin service trace] in *.
  assert (Hr' : only_reads (tr ++ [Requested r])).
  { apply (only_reads_record (Requested r)
             {| stdin := inp; service := sv; trace := tr |}); [assumption |].
    intros r' E. injection E as <-. exact Hget. }
  destruct sv as [|[kind|code data] rest]; exact Hr'.
Qed.

Lemma reads_bind {A B} (m : M A) (f : A -> M B) :
  reads m -> (forall a, reads (f a)) -> reads (bind m f).
Proof.
  intros Hm Hf w Hr. rewrite bind_run. specialize (Hm w Hr).
  destruct (m w) as [[a|e|] w1]; simpl in *; [now apply Hf | assumption | assumption].
Qed.

Lemma reads_try_except {A} (m : M A) (handler : exn -> option (M A)) :
  reads m -> (forall e h, handler e = Some h -> reads h) ->
  reads (try_except m handler).
Proof.
  intros Hm Hh w Hr. unfold try_except. specialize (Hm w Hr).
  destruct (m w) as [[a|e|] w1]; simpl in *; try assumption.
  destruct (handler e) as [h|] eqn:E; [now apply (Hh e h E) | assumption].
Qed.

Lemma reads_while_true {L A} (body : L -> M (step L A)) (l : L) :
  (forall l, reads (body l)) -> reads (while_true body l).
Proof.
  intros Hbody w. unfold while_true. generalize (S (length (stdin w))). intro n.
  revert l w. induction n as [|n IH]; intros l w Hr; [exact Hr |].
  simpl. apply reads_bind; [apply Hbody | | exact Hr].
  intros [l'|a]; [intros w1; apply IH | apply reads_ret].
Qed.

Lemma reads_for_each {X L} (xs : list X) (body : X -> L -> M L) :
  (forall x l, reads (body x l)) -> forall l, reads (for_each xs body l).
Proof.
  intro Hbody. induction xs as [|x rest IH]; intro l; simpl.
  - apply reads_ret.
  - apply reads_bind; [apply Hbody | intro; apply IH].
Qed.

Lemma reads_for_each_until {X L A} (xs : list X) (body : X -> L -> M (step L A)) :
  (forall x l, reads (body x l)) -> forall l, reads (for_each_until xs body l).
Proof.
  intro Hbody. induction xs as [|x rest IH]; intro l; simpl.
  - apply reads_ret.
  - apply reads_bind; [apply Hbody |].
    intros [l'|a]; [apply IH | apply reads_ret].
Qed.

Ltac reads_step :=
  match goal with
  | |- reads (ret _) => apply reads_ret
  | |- reads (raise _) => apply reads_raise
  | |- reads (print _) => apply reads_print
  | |- reads (input _) => apply reads_input
  | |- reads (send _) => apply reads_send; reflexivity
  | |- reads (bind _ _) => apply reads_bind; [| intros]
  | |- reads (try_except _ _) =>
      apply reads_try_except;
      [| let e := fresh "e" in let h := fresh "h" in let H := fresh "H" in
         intros e h H; handler_cases e H]
  | |- reads (for_each _ _ _) => apply reads_for_each; intros
  | |- reads (for_each_until _ _ _) => apply reads_for_each_until; intros
  | |- reads (while_true _ _) => apply reads_while_true; intros
  | |- reads (if ?b then _ else _) => destruct b
  | |- reads (match ?x with _ => _ end) => destruct x
  end.

Ltac reads_tac := repeat (cbv beta iota zeta; reads_step).

Section Viewing.

Variable self : manager.

Lemma reads_get_collections : reads (get_collections self).
Proof.
  unfold get_collections, json_of, collections_of, except_Exception. reads_tac.
Qed.

Lemma reads_get_user_selection cols action : reads (get_user_selection cols action).
Proof.
  unfold get_user_selection, selection_iteration, select_number, int_or_raise.
  reads_tac.
Qed.

Lemma reads_show_collection_details cols : reads (show_collection_details self cols).
Proof.
  unfold show_collection_details.
  apply reads_bind; [apply reads_get_user_selection |].
  intro selected. unfold get_collection_info, json_of, info_fields. reads_tac.
Qed.

(** X19. Viewing never writes: whatever the user types, a yes included,
    and whatever the service replies, the actions of menu choices 1 (list)
    and 3 (details) send nothing but GET requests. *)
Theorem viewing_is_read_only (choice : string) (collections : collections_var)
  (w : world) :
  In choice viewing_choices ->
  only_reads (trace w) ->
  only_reads (trace (snd (menu_action self choice collections w))).
Proof.
  intros Hchoice. revert w.
  change (reads (menu_action self choice collections)).
  destruct Hchoice as [<- | [<- | []]]; unfold menu_action;
    cbn [String.eqb Ascii.eqb Bool.eqb].
  - apply reads_bind; [apply reads_print | intros _].
    apply reads_bind; [apply reads_get_collections | intro fetched].
    unfold list_branch, display_collections. reads_tac.
  - apply reads_bind; [apply reads_get_collections | intro fetched].
    apply reads_bind; [| intros; apply reads_ret].
    unfold details_branch, display_collections.
    destruct fetched as [[|col listing]|]; try apply reads_print.
    apply reads_bind; [apply reads_print | intros _].
    apply reads_show_collection_details.
Qed.

End Viewing.

(** The details of a collection, with a yes typed where a number is
    expected. *)
Lemma viewing_is_read_only_witness :
  only_reads (trace (snd (menu_action sample_manager "3" Unbound
    {| stdin := [Line "yes"; Line "1"];
       service := [listing_reply [entry "docs"]; Response 200 None];
       trace := [] |}))).
Proof.
  apply (viewing_is_read_only sample_manager "3" Unbound).
  - right. left. reflexivity.
  - intros r [].
Defined.
